(** * GoogleMaps scraper: the extraction engine and the collection loop

    A shallow embedding of [gmaps_scraper_server/extractor.py] and of the
    decision logic of [gmaps_scraper_server/scraper.py], with the
    properties of the specification stated and proved over it.

    Conventions of the embedding.
    - Text.  A Python [str] is a [string]; one [ascii] stands for one code
      point in the range 0..255, and the character classes below follow
      CPython on that range.
    - Values.  Decoded JSON and the values stored in the result
      dictionaries are [pyval]s; dictionaries keyed by field name are
      [gmap string pyval].
    - Exceptions.  Code that may raise lives in the monad [M]: a
      computation receives the [result] dictionary it mutates and returns
      either a value or a raised [exn], together with the dictionary as it
      stands at that moment (a mutation made before a raise is kept, as in
      Python).  [try_except] is the handler [except Exception: pass].
    - Library code.  [re] is embedded by a backtracking matcher for the
      constructs the patterns of the source use; [json.loads] is a
      parameter of the development ([json_loads]), instantiated by a
      reference decoder in the examples.
    - The browser.  What the driver answers (responses, raised errors, the
      links and heights seen after a scroll) is input of the model. *)

From Stdlib Require Import ZArith Ascii String Bool Lia.
From stdpp Require Import base option list strings gmap.

Local Open Scope Z_scope.
Local Open Scope stdpp_scope.

(** ** Python text *)

Module Text.

(** Double quotes and newlines occur throughout the source literals.  In
    this file they are written with the two placeholders below:
    [lit s] is [s] with every backquote replaced by a double quote and
    every [~] replaced by a line feed. *)
Definition dquote : ascii := "034"%char.
Definition newline : ascii := "010"%char.

Fixpoint lit (s : string) : string :=
  match s with
  | EmptyString => EmptyString
  | String c s' =>
      String (if Ascii.eqb c "`" then dquote
              else if Ascii.eqb c "~" then newline else c) (lit s')
  end.

Definition code (c : ascii) : N := N_of_ascii c.

Definition in_range (lo hi : N) (c : ascii) : bool :=
  ((lo <=? code c) && (code c <=? hi))%N.

(** [str.isdecimal], the class [\d]. *)
Definition is_digit (c : ascii) : bool := in_range 48 57 c.

(** [str.isspace], the class [\s], and what [str.strip()] removes. *)
Definition is_space (c : ascii) : bool :=
  in_range 9 13 c || in_range 28 32 c
  || (code c =? 133)%N || (code c =? 160)%N.

(** [str.isalpha] on one character. *)
Definition is_alpha (c : ascii) : bool :=
  in_range 65 90 c || in_range 97 122 c
  || (code c =? 170)%N || (code c =? 181)%N || (code c =? 186)%N
  || in_range 192 214 c || in_range 216 246 c || in_range 248 255 c.

(** [str.isdigit] on one character (the superscripts count). *)
Definition is_digit_char (c : ascii) : bool :=
  is_digit c || (code c =? 178)%N || (code c =? 179)%N || (code c =? 185)%N.

(** The class [\w]: alphanumeric (letters, digits, numeric characters)
    or the underscore. *)
Definition is_word (c : ascii) : bool :=
  is_alpha c || is_digit_char c || in_range 188 190 c || (code c =? 95)%N.

Definition lower_char (c : ascii) : ascii :=
  if in_range 65 90 c || in_range 192 214 c || in_range 216 222 c
  then ascii_of_N (code c + 32) else c.

Fixpoint lower (s : string) : string :=
  match s with
  | EmptyString => EmptyString
  | String c s' => String (lower_char c) (lower s')
  end.

Definition is_empty (s : string) : bool :=
  match s with EmptyString => true | _ => false end.

(** [s.startswith(p)] *)
Fixpoint startswith (p s : string) : bool :=
  match p, s with
  | EmptyString, _ => true
  | String a p', String b s' => Ascii.eqb a b && startswith p' s'
  | String _ _, EmptyString => false
  end.

(** [s[n:]] *)
Fixpoint drop (n : nat) (s : string) : string :=
  match n, s with
  | O, _ => s
  | S n', String _ s' => drop n' s'
  | S _, EmptyString => EmptyString
  end.

(** [s[:n]] *)
Fixpoint take (n : nat) (s : string) : string :=
  match n, s with
  | S n', String c s' => String c (take n' s')
  | _, _ => EmptyString
  end.

(** [p in s] *)
Fixpoint contains (p s : string) : bool :=
  startswith p s ||
  match s with
  | EmptyString => false
  | String _ s' => contains p s'
  end.

(** [s.split(p, 1)[1]], for a non-empty [p] that occurs in [s]: what
    follows the first occurrence.  ([None] stands for the [IndexError]
    of indexing the one-element list when [p] does not occur.) *)
Fixpoint after_first (p s : string) : option string :=
  if startswith p s then Some (drop (String.length p) s)
  else match s with
       | EmptyString => None
       | String _ s' => after_first p s'
       end.

(** [s.lstrip(chars)] and the two halves of [s.strip()], by the
    predicate of the characters removed. *)
Fixpoint lstrip_by (p : ascii -> bool) (s : string) : string :=
  match s with
  | EmptyString => EmptyString
  | String c s' => if p c then lstrip_by p s' else s
  end.

Fixpoint rstrip_by (p : ascii -> bool) (s : string) : string :=
  match s with
  | EmptyString => EmptyString
  | String c s' =>
      let r := rstrip_by p s' in
      if is_empty r && p c then EmptyString else String c r
  end.

Definition strip (s : string) : string :=
  rstrip_by is_space (lstrip_by is_space s).

(** [s.replace(c, '')] for a one-character [c]. *)
Fixpoint remove_char (c : ascii) (s : string) : string :=
  match s with
  | EmptyString => EmptyString
  | String a s' =>
      if Ascii.eqb a c then remove_char c s' else String a (remove_char c s')
  end.

(** [sep.join(l)] *)
Fixpoint join (sep : string) (l : list string) : string :=
  match l with
  | [] => EmptyString
  | [x] => x
  | x :: l' => x +:+ sep +:+ join sep l'
  end.

Definition digit_value (c : ascii) : Z := Z.of_N (code c) - 48.

Fixpoint digits_value (acc : Z) (s : string) : option Z :=
  match s with
  | EmptyString => Some acc
  | String c s' =>
      if is_digit c then digits_value (10 * acc + digit_value c) s' else None
  end.

(** The default of [sys.int_max_str_digits]: [int] refuses a text of
    more digits (leading zeros count). *)
Definition INT_MAX_STR_DIGITS : nat := 4300.

(** [int(s)] on the strings the source passes to it: what is left of a
    run of digits, commas and periods once the commas and periods are
    removed.  [None] is the [ValueError] (the empty string, more than
    [INT_MAX_STR_DIGITS] digits, or a character that is no digit). *)
Definition py_int (s : string) : option Z :=
  if is_empty s then None
  else if (INT_MAX_STR_DIGITS <? String.length s)%nat then None
  else digits_value 0 s.

End Text.

(** ** Regular expressions

    The patterns of the source use literals, character classes,
    quantified character classes (greedy and lazy, bounded and not), one
    capture group, and the anchors [^] and [$].  [exec] is the
    backtracking matcher of [re] for these constructs, in
    continuation-passing style: alternatives are tried in Python's order
    of preference, and the first one whose continuation succeeds wins. *)

Module Re.
Import Text.

Inductive regex : Type :=
  | Lit (s : string)                 (* the characters of [s], in order *)
  | Cls (p : ascii -> bool)          (* one character of a class *)
  | Rep (greedy : bool) (p : ascii -> bool)
        (lo : nat) (hi : option nat) (* a class, [lo] to [hi] times *)
  | Cat (r1 r2 : regex)
  | Grp (r : regex)                  (* the capture group, [( ... )] *)
  | Bol                              (* [^] *)
  | Eol.                             (* [$] *)

Infix ">>" := Cat (at level 60, right associativity).

(** Classes. [dot] is [.] without [re.DOTALL], [any] is [.] with it. *)
Definition any : ascii -> bool := fun _ => true.
Definition dot : ascii -> bool := fun c => negb (Ascii.eqb c newline).
Definition chr (a : ascii) : ascii -> bool := fun c => Ascii.eqb c a.
Definition other_than (a : ascii) : ascii -> bool := fun c => negb (Ascii.eqb c a).
Definition one_of (s : string) : ascii -> bool :=
  fun c => contains (String c EmptyString) s.
Definition either (p q : ascii -> bool) : ascii -> bool := fun c => p c || q c.

Definition star p := Rep true p 0 None.       (* [p*]  *)
Definition plus p := Rep true p 1 None.       (* [p+]  *)
Definition lazy_star p := Rep false p 0 None. (* [p*?] *)
Definition opt p := Rep true p 0 (Some 1%nat). (* [p?]  *)

(** Where the matcher stands: [pos] characters of the subject are
    behind, [rest] is ahead, and [grp] holds the bounds of the capture
    group once it has been closed. *)
Record cursor := Cursor { pos : nat; rest : string; grp : option (nat * nat) }.

Section Exec.
Context {A : Type}.

Definition below (n : nat) (hi : option nat) : bool :=
  match hi with None => true | Some h => (n <? h)%nat end.

(** A class repeated: [n] repetitions are done. A greedy quantifier
    takes one more character first and gives it back if the rest of the
    pattern fails; a lazy one tries the rest of the pattern first. *)
Fixpoint exec_rep (greedy : bool) (p : ascii -> bool) (lo : nat)
    (hi : option nat) (k : cursor -> option A)
    (n : nat) (at_pos : nat) (g : option (nat * nat)) (s : string)
    : option A :=
  let stop := if (lo <=? n)%nat then k (Cursor at_pos s g) else None in
  let more :=
    match s with
    | String c s' =>
        if p c && below n hi
        then exec_rep greedy p lo hi k (S n) (S at_pos) g s'
        else None
    | EmptyString => None
    end in
  if greedy
  then match more with Some a => Some a | None => stop end
  else match stop with Some a => Some a | None => more end.

Fixpoint exec (r : regex) (k : cursor -> option A) (c : cursor) : option A :=
  match r with
  | Lit l =>
      if startswith l (rest c)
      then k (Cursor (pos c + String.length l) (drop (String.length l) (rest c)) (grp c))
      else None
  | Cls p =>
      match rest c with
      | String a s' => if p a then k (Cursor (S (pos c)) s' (grp c)) else None
      | EmptyString => None
      end
  | Rep greedy p lo hi => exec_rep greedy p lo hi k 0 (pos c) (grp c) (rest c)
  | Cat r1 r2 => exec r1 (exec r2 k) c
  | Grp r1 =>
      exec r1 (fun c' => k (Cursor (pos c') (rest c') (Some (pos c, pos c')))) c
  | Bol => if (pos c =? 0)%nat then k c else None
  | Eol =>
      if is_empty (rest c) || String.eqb (rest c) (String newline EmptyString)
      then k c else None
  end.
End Exec.

(** A match object: [m.start()], [m.end()] and [m.group(1)]. *)
Record rmatch := Match { m_start : nat; m_end : nat; group1 : string }.

Definition slice (subject : string) (b : option (nat * nat)) : string :=
  match b with
  | Some (i, j) => take (j - i) (drop i subject)
  | None => EmptyString
  end.

Definition match_at (r : regex) (subject : string) (i : nat) (s : string)
    : option rmatch :=
  exec r (fun c => Some (Match i (pos c) (slice subject (grp c)))) (Cursor i s None).

(** [re.match(r, subject)] *)
Definition rematch (r : regex) (subject : string) : option rmatch :=
  match_at r subject 0 subject.

Definition matches (r : regex) (subject : string) : bool :=
  match rematch r subject with Some _ => true | None => false end.

(** [re.search(r, subject)]: the match at the leftmost position that has one. *)
Fixpoint search_from (r : regex) (subject : string) (i : nat) (s : string)
    : option rmatch :=
  match match_at r subject i s with
  | Some m => Some m
  | None =>
      match s with
      | EmptyString => None
      | String _ s' => search_from r subject (S i) s'
      end
  end.

Definition search (r : regex) (subject : string) : option rmatch :=
  search_from r subject 0 subject.

(** [re.findall(r, subject)] for a pattern with one group that matches
    no empty text: the captures of the successive matches, each search
    resuming where the previous match ended. *)
Fixpoint findall_from (fuel : nat) (r : regex) (subject : string) (i : nat)
    (s : string) : list string :=
  match fuel with
  | O => []
  | S fuel' =>
      match search_from r subject i s with
      | Some m =>
          group1 m :: findall_from fuel' r subject (m_end m) (drop (m_end m - i) s)
      | None => []
      end
  end.

Definition findall (r : regex) (subject : string) : list string :=
  findall_from (S (String.length subject)) r subject 0 subject.

(** [re.sub(r, '', subject)] for a pattern that matches no empty text:
    every match is deleted, the characters between matches are kept. *)
Fixpoint delete_from (fuel : nat) (r : regex) (subject : string) (i : nat)
    (s : string) : string :=
  match fuel with
  | O => s
  | S fuel' =>
      match match_at r subject i s with
      | Some m => delete_from fuel' r subject (m_end m) (drop (m_end m - i) s)
      | None =>
          match s with
          | EmptyString => EmptyString
          | String a s' => String a (delete_from fuel' r subject (S i) s')
          end
      end
  end.

Definition delete_all (r : regex) (subject : string) : string :=
  delete_from (S (String.length subject)) r subject 0 subject.

End Re.

(** ** Python values *)

Module Value.
Import Text.

(** A float is kept as the decimal it was read from, [mantissa * 10 ^
    exponent]; binary rounding is not modelled, with two exceptions: the
    test against zero, which is all the source asks of a float, and the
    overflow of a decimal that is too large for a double, which is read
    as an infinity. *)
Inductive pyfloat : Type :=
  | FDec (mantissa exponent : Z)
  | FInf (negative : bool)
  | FNaN.

(** [bool(x)] for a float [x]: the nearest double is not zero. A decimal
    rounds to zero when it is at most half the smallest subnormal,
    [2 ^ -1075]. *)
Definition float_truthy (f : pyfloat) : bool :=
  match f with
  | FDec m e =>
      if 0 <=? e then negb (m =? 0)
      else negb (Z.abs m * 2 ^ 1075 <=? 10 ^ (- e))
  | FInf _ | FNaN => true
  end.

(** The least magnitude that rounds to infinity: half-way between the
    largest double, [2 ^ 1024 - 2 ^ 971], and [2 ^ 1024] (the tie goes to
    the even neighbour, which is the infinity). *)
Definition DOUBLE_OVERFLOW : Z := 2 ^ 1024 - 2 ^ 970.

Definition overflows (m e : Z) : bool :=
  if 0 <=? e then DOUBLE_OVERFLOW <=? Z.abs m * 10 ^ e
  else DOUBLE_OVERFLOW * 10 ^ (- e) <=? Z.abs m.

(** The float read from the decimal [m * 10 ^ e]. *)
Definition to_double (m e : Z) : pyfloat :=
  if overflows m e then FInf (m <? 0) else FDec m e.

(** [float(s)] on the strings the source passes to it, runs of digits and
    periods: digits with at most one period among them. [None] is the
    [ValueError]. *)
Fixpoint split_period (s : string) : string * option string :=
  match s with
  | EmptyString => (EmptyString, None)
  | String c s' =>
      if Ascii.eqb c "." then (EmptyString, Some s')
      else let '(w, f) := split_period s' in (String c w, f)
  end.

Definition py_float (s : string) : option pyfloat :=
  let '(whole, f) := split_period s in
  let frac := default EmptyString f in
  if is_empty (whole +:+ frac) then None
  else m ← digits_value 0 (whole +:+ frac);
       Some (to_double m (- Z.of_nat (String.length frac))).

#[local] Set Warnings "-register-all".
Inductive pyval : Type :=
  | VNone
  | VBool (b : bool)
  | VInt (z : Z)
  | VFloat (f : pyfloat)
  | VStr (s : string)
  | VList (l : list pyval)
  | VDict (d : list (string * pyval)).

(** [bool(v)] *)
Definition truthy (v : pyval) : bool :=
  match v with
  | VNone => false
  | VBool b => b
  | VInt z => negb (z =? 0)
  | VFloat f => float_truthy f
  | VStr s => negb (is_empty s)
  | VList l => match l with [] => false | _ => true end
  | VDict d => match d with [] => false | _ => true end
  end.

(** [isinstance(v, (int, float))]; a [bool] is an [int] in Python. *)
Definition is_number (v : pyval) : bool :=
  match v with VBool _ | VInt _ | VFloat _ => true | _ => false end.

Definition is_none (v : pyval) : bool :=
  match v with VNone => true | _ => false end.

(** [{"latitude": lat, "longitude": lng}] *)
Definition coordinates_of (lat lng : pyval) : pyval :=
  VDict [("latitude", lat); ("longitude", lng)].

(** The exceptions the modelled code meets; all derive from [Exception]. *)
Inductive exn : Type :=
  | JSONDecodeError
  | RecursionError
  | TypeError
  | IndexError
  | KeyError
  | OtherError (name : string).

(** [len(v)] *)
Definition py_len (v : pyval) : exn + nat :=
  match v with
  | VStr s => inr (String.length s)
  | VList l => inr (length l)
  | VDict d => inr (length d)
  | VNone | VBool _ | VInt _ | VFloat _ => inl TypeError
  end.

(** [v[i]] for an index [i >= 0]. The keys of a decoded JSON object are
    strings, so an integer key is never found. *)
Definition py_getitem (v : pyval) (i : nat) : exn + pyval :=
  match v with
  | VList l => match l !! i with Some x => inr x | None => inl IndexError end
  | VStr s =>
      match String.get i s with
      | Some c => inr (VStr (String c EmptyString))
      | None => inl IndexError
      end
  | VDict _ => inl KeyError
  | VNone | VBool _ | VInt _ | VFloat _ => inl TypeError
  end.

(** [", ".join(filter(None, l))]: the truthy items, which must all be
    strings. *)
Fixpoint strings_of (l : list pyval) : exn + list string :=
  match l with
  | [] => inr []
  | VStr s :: l' =>
      match strings_of l' with inr ss => inr (s :: ss) | inl e => inl e end
  | _ :: _ => inl TypeError
  end.

Definition join_truthy (l : list pyval) : exn + string :=
  match strings_of (List.filter truthy l) with
  | inr ss => inr (join ", " ss)
  | inl e => inl e
  end.

End Value.

(** ** Computations that mutate [result] and may raise *)

Module Effect.
Import Value.

(** The state is the [result] dictionary of the parser, which the three
    functions of the structured-state parser share by reference. *)
Definition M (A : Type) : Type :=
  gmap string pyval -> (exn + A) * gmap string pyval.

Definition ret {A} (a : A) : M A := fun d => (inr a, d).

Definition bind {A B} (m : M A) (f : A -> M B) : M B := fun d =>
  match m d with
  | (inr a, d') => f a d'
  | (inl e, d') => (inl e, d')
  end.

Declare Scope M_scope.
Delimit Scope M_scope with M.
Notation "x ← m ; k" := (bind m (fun x => k))
  (at level 20, m at level 100, k at level 200, only parsing) : M_scope.
Notation "m ;; k" := (bind m (fun _ => k))
  (at level 100, k at level 200, only parsing, right associativity) : M_scope.
Local Open Scope M_scope.

(** A library call that returns or raises. *)
Definition lift {A} (r : exn + A) : M A := fun d => (r, d).

Definition pass : M unit := ret tt.

(** [result.setdefault(key, v)]: first writer wins. *)
Definition setdefault (key : string) (v : pyval) : M unit := fun d =>
  (inr tt, match d !! key with Some _ => d | None => <[key := v]> d end).

(** [result[key] = v] *)
Definition store (key : string) (v : pyval) : M unit := fun d =>
  (inr tt, <[key := v]> d).

(** [if not result: body] *)
Definition if_result_empty (body : M unit) : M unit := fun d =>
  if bool_decide (d = ∅) then body d else (inr tt, d).

(** [try: body / except Exception: ...] with a handler that only passes
    or prints: whatever [body] raised is dropped, what it had written to
    [result] stays. *)
Definition try_except (body : M unit) : M unit := fun d =>
  (inr tt, (body d).2).

(** [if len(v) > i and ... v[i] ...: ...]: [body] receives [v[i]]. *)
Definition if_longer (v : pyval) (i : nat) (body : pyval -> M unit) : M unit :=
  n ← lift (py_len v);
  if (i <? n)%nat then x ← lift (py_getitem v i); body x else pass.

End Effect.

(** ** extractor.py: the rendered-markup extractors *)

Module Extractor.
Import Text Re Value Effect.
Local Open Scope M_scope.

(** The patterns, each under the source's own spelling of it (with a
    backquote for the double quote, as in [lit]). *)

(** [r'<h1[^>]*>(.*?)</h1>'] with [re.DOTALL] *)
Definition NAME_RE : regex :=
  Lit "<h1" >> star (other_than ">") >> Lit ">" >> Grp (lazy_star any) >> Lit "</h1>".

(** [r'<[^>]+>'] *)
Definition TAG_RE : regex := Lit "<" >> plus (other_than ">") >> Lit ">".

(** [r'class=`fontDisplayMedium`>([\d.]+)</div>'] *)
Definition RATING_RE : regex :=
  Lit (lit "class=`fontDisplayMedium`>")
  >> Grp (plus (either is_digit (chr "."))) >> Lit "</div>".

(** [r'fontDisplayMedium`>[\d.]+<.*?>([\d,]+)\s+reviews?'] with [re.DOTALL] *)
Definition REVIEWS_RE : regex :=
  Lit (lit "fontDisplayMedium`>") >> plus (either is_digit (chr "."))
  >> Lit "<" >> lazy_star any >> Lit ">"
  >> Grp (plus (either is_digit (chr ",")))
  >> plus is_space >> Lit "review" >> opt (chr "s").

(** [r'aria-label=`Address:\s*(.*?)\s*`'] *)
Definition ADDRESS_LABEL_RE : regex :=
  Lit (lit "aria-label=`Address:") >> star is_space
  >> Grp (lazy_star dot) >> star is_space >> Lit (lit "`").

(** [r'data-item-id=`address`[^>]*aria-label=`(.*?)`'] *)
Definition ADDRESS_ITEM_RE : regex :=
  Lit (lit "data-item-id=`address`") >> star (other_than ">")
  >> Lit (lit "aria-label=`") >> Grp (lazy_star dot) >> Lit (lit "`").

(** [r'aria-label=`Website:\s*(.*?)\s*`'] *)
Definition WEBSITE_LABEL_RE : regex :=
  Lit (lit "aria-label=`Website:") >> star is_space
  >> Grp (lazy_star dot) >> star is_space >> Lit (lit "`").

(** [r'data-item-id=`authority`[^>]*aria-label=`[^`]*?([\w][\w.-]+\.\w{2,})'] *)
Definition AUTHORITY_RE : regex :=
  Lit (lit "data-item-id=`authority`") >> star (other_than ">")
  >> Lit (lit "aria-label=`") >> lazy_star (other_than dquote)
  >> Grp (Cls is_word >> plus (either is_word (one_of ".-"))
          >> Lit "." >> Rep true is_word 2 None).

(** [r'data-item-id=`phone:tel:(\d+)`'] *)
Definition PHONE_ITEM_RE : regex :=
  Lit (lit "data-item-id=`phone:tel:") >> Grp (plus is_digit) >> Lit (lit "`").

(** [r'aria-label=`Phone:\s*(.*?)\s*`'] *)
Definition PHONE_LABEL_RE : regex :=
  Lit (lit "aria-label=`Phone:") >> star is_space
  >> Grp (lazy_star dot) >> star is_space >> Lit (lit "`").

(** [r'\D'] *)
Definition NON_DIGIT_RE : regex := Cls (fun c => negb (is_digit c)).

(** [r'<h1[^>]*>.*?</h1>'] with [re.DOTALL] *)
Definition HEADING_RE : regex :=
  Lit "<h1" >> star (other_than ">") >> Lit ">" >> lazy_star any >> Lit "</h1>".

(** [r'<span[^>]*>([^<]{2,50})</span>'] *)
Definition SPAN_RE : regex :=
  Lit "<span" >> star (other_than ">") >> Lit ">"
  >> Grp (Rep true (other_than "<") 2 (Some 50%nat)) >> Lit "</span>".

(** [r'^[\d.,()]+$'] *)
Definition NUMERIC_RE : regex := Bol >> plus (either is_digit (one_of ".,()")) >> Eol.

Definition _extract_name (html_content : string) : option string :=
  match search NAME_RE html_content with
  | Some m =>
      let name := strip (delete_all TAG_RE (group1 m)) in
      if is_empty name then None else Some name
  | None => None
  end.

Definition _extract_rating (html_content : string) : option pyfloat :=
  match search RATING_RE html_content with
  | Some m => py_float (group1 m)
  | None => None
  end.

Definition _extract_reviews_count (html_content : string) : option Z :=
  match search REVIEWS_RE html_content with
  | Some m => py_int (remove_char "." (remove_char "," (group1 m)))
  | None => None
  end.

Definition _extract_address (html_content : string) : option string :=
  match search ADDRESS_LABEL_RE html_content with
  | Some m => Some (strip (group1 m))
  | None =>
      match search ADDRESS_ITEM_RE html_content with
      | Some m =>
          let addr := strip (group1 m) in
          Some (if startswith "Address:" addr then strip (drop 8 addr) else addr)
      | None => None
      end
  end.

(** [if not website.startswith(('http://', 'https://')): website = 'https://' + website] *)
Definition with_scheme (website : string) : string :=
  if startswith "http://" website || startswith "https://" website
  then website else "https://" +:+ website.

Definition _extract_website (html_content : string) : option string :=
  let from_authority :=
    match search AUTHORITY_RE html_content with
    | Some m => Some (with_scheme (group1 m))
    | None => None
    end in
  match search WEBSITE_LABEL_RE html_content with
  | Some m =>
      let website := strip (group1 m) in
      if is_empty website then from_authority else Some (with_scheme website)
  | None => from_authority
  end.

Definition _extract_phone (html_content : string) : option string :=
  match search PHONE_ITEM_RE html_content with
  | Some m => Some (group1 m)
  | None =>
      match search PHONE_LABEL_RE html_content with
      | Some m =>
          let phone := delete_all NON_DIGIT_RE (group1 m) in
          if is_empty phone then None else Some phone
      | None => None
      end
  end.

Definition middle_dot : string := String "183"%char EmptyString.

Definition first_char (p : ascii -> bool) (s : string) : bool :=
  match s with String c _ => p c | EmptyString => false end.

(** The body of the loop over the spans: [true] when the span is taken
    as the category. Each of the first four tests is a [continue]. *)
Definition is_category (text : string) : bool :=
  if matches NUMERIC_RE text then false
  else if contains "review" (lower text) then false
  else if bool_decide (text ∈ [middle_dot; "$$"; "$$$"; "$$$$"; "$"])
          || String.eqb text middle_dot then false
  else if (String.length text =? 1)%nat && negb (first_char is_alpha text) then false
  else (1 <? String.length text)%nat
       && (first_char is_alpha text || first_char is_digit_char text).

Definition _extract_categories (html_content : string) : option (list string) :=
  match search HEADING_RE html_content with
  | Some h1_match =>
      let area := take 3000 (drop (m_end h1_match) html_content) in
      let spans := findall SPAN_RE area in
      match List.find is_category (map strip spans) with
      | Some text => Some [text]
      | None => None
      end
  | None => None
  end.

(** ** extractor.py: the structured-state parser *)

(** [r';window\.APP_INITIALIZATION_STATE\s*=\s*(.*?);window\.APP_FLAGS']
    with [re.DOTALL] *)
Definition APP_STATE_RE : regex :=
  Lit ";window.APP_INITIALIZATION_STATE" >> star is_space >> Lit "="
  >> star is_space >> Grp (lazy_star any) >> Lit ";window.APP_FLAGS".

(** [json_str.startswith(('[', '{'))] *)
Definition opens_json (s : string) : bool :=
  startswith "[" s || startswith "{" s.

Definition as_list (v : pyval) : option (list pyval) :=
  match v with VList l => Some l | _ => None end.

(** The list reached from the list [l] along [path], when every step
    stays in range and lands on a list: for the path [[5; 3; 2]] the
    test [len(l) > 5 and isinstance(l[5], list) and len(l[5]) > 3 and
    isinstance(l[5][3], list) and len(l[5][3]) > 2 and
    isinstance(l[5][3][2], list)], and then [l[5][3][2]]. *)
Fixpoint nested_list (path : list nat) (l : list pyval) : option (list pyval) :=
  match path with
  | [] => Some l
  | i :: path' =>
      match l !! i with
      | Some (VList l') => nested_list path' l'
      | _ => None
      end
  end.

(** [lat, lng = c[2], c[3]] followed by the numeric test, for a list [c]
    with [len(c) > 3]: the dictionary to record, if any. *)
Definition coordinates_in (c : list pyval) : option pyval :=
  if (3 <? length c)%nat then
    match c !! 2%nat, c !! 3%nat with
    | Some lat, Some lng =>
        if is_number lat && is_number lng
        then Some (coordinates_of lat lng) else None
    | _, _ => None
    end
  else None.

(** Try to extract data from the legacy [3][6] list structure. The body
    of the [try]; each paragraph is one [if] of the source. *)
Definition legacy_blob_body (blob : pyval) : M unit :=
  if_longer blob 11 (fun x =>
    if truthy x then setdefault "name" x else pass);;
  if_longer blob 10 (fun x =>
    if truthy x then setdefault "place_id" x else pass);;
  if_longer blob 9 (fun x =>
    match as_list x ≫= coordinates_in with
    | Some c => setdefault "coordinates" c
    | None => pass
    end);;
  if_longer blob 4 (fun x =>
    match x with
    | VList l =>
        match l !! 7%nat with
        | Some y => if truthy y then setdefault "rating" y else pass
        | None => pass
        end;;
        match l !! 8%nat with
        | Some y => if truthy y then setdefault "reviews_count" y else pass
        | None => pass
        end
    | _ => pass
    end);;
  if_longer blob 7 (fun x =>
    match x with
    | VList (y :: _) => setdefault "website" y
    | _ => pass
    end);;
  if_longer blob 2 (fun x =>
    match x with
    | VList l =>
        addr ← lift (join_truthy l);
        if is_empty addr then pass else setdefault "address" (VStr addr)
    | _ => pass
    end);;
  if_longer blob 13 (fun x =>
    if truthy x then setdefault "categories" x else pass).

Definition _extract_legacy_blob (blob : pyval) : M unit :=
  try_except (legacy_blob_body blob).

Section Decoder.

(** [json.loads]: the decoded value, or the exception raised. *)
Variable json_loads : string -> exn + pyval.

(** The prefix is stripped by [split(")'", 1)[1]] when [")'"] occurs in
    the string, by [[4:]] otherwise; then the leading line feeds go. *)
Definition strip_prefix (inner_str : string) : string :=
  if startswith ")]}'" inner_str then
    let stripped :=
      if contains ")'" inner_str
      then default EmptyString (after_first ")'" inner_str)
      else drop 4 inner_str in
    lstrip_by (chr newline) stripped
  else inner_str.

(** Try to parse the legacy string format at [3][6]. *)
Definition legacy_string_body (blob_str : string) : M unit :=
  let inner_str := strip (strip_prefix blob_str) in
  if opens_json inner_str then
    parsed ← lift (json_loads inner_str);
    match as_list parsed ≫= nested_list [6%nat] with
    | Some blob => _extract_legacy_blob (VList blob)
    | None => pass
    end
  else pass.

Definition _try_parse_legacy_string (blob_str : string) : M unit :=
  try_except (legacy_string_body blob_str).

(** New structure (2025+): place data at [5][3][2]. *)
Definition new_structure (initial_data : pyval) : M unit :=
  match as_list initial_data ≫= nested_list [5; 3; 2]%nat with
  | Some data =>
      (if (1 <? length data)%nat then
         match data !! 0%nat with
         | Some (VStr s) => store "place_id" (VStr s)
         | _ => pass
         end
       else pass);;
      match nested_list [7%nat] data ≫= coordinates_in with
      | Some c => store "coordinates" c
      | None => pass
      end
  | None => pass
  end.

(** Legacy structure: place data at [3][6]. *)
Definition legacy_structure (initial_data : pyval) : M unit :=
  if_result_empty
    match as_list initial_data ≫= nested_list [3%nat] with
    | Some l =>
        match l !! 6%nat with
        | Some (VList blob) => _extract_legacy_blob (VList blob)
        | Some (VStr blob) => _try_parse_legacy_string blob
        | _ => pass
        end
    | None => pass
    end.

(** The body of the [try] of [_extract_from_app_init_state]; the two
    early [return result] are the two [pass]. *)
Definition app_init_state_body (html_content : string) : M unit :=
  match search APP_STATE_RE html_content with
  | None => pass
  | Some m =>
      let json_str := strip (group1 m) in
      if negb (opens_json json_str) then pass
      else
        initial_data ← lift (json_loads json_str);
        new_structure initial_data;;
        legacy_structure initial_data
  end.

Definition _extract_from_app_init_state (html_content : string) : M unit :=
  try_except (app_init_state_body html_content).

(** [result = {}] on entry, [return result] on exit. *)
Definition init_data_of (html_content : string) : gmap string pyval :=
  (_extract_from_app_init_state html_content ∅).2.

(** ** extractor.py: [extract_place_data] *)

(** What the seven rendered-markup extractors returned. *)
Record rendered : Type := Rendered {
  r_name : option string;
  r_rating : option pyfloat;
  r_reviews_count : option Z;
  r_address : option string;
  r_website : option string;
  r_phone : option string;
  r_categories : option (list string)
}.

Definition rendered_of (html_content : string) : rendered :=
  {| r_name := _extract_name html_content;
     r_rating := _extract_rating html_content;
     r_reviews_count := _extract_reviews_count html_content;
     r_address := _extract_address html_content;
     r_website := _extract_website html_content;
     r_phone := _extract_phone html_content;
     r_categories := _extract_categories html_content |}.

(** The Python value of an extractor's return. *)
Definition of_option {A} (inj : A -> pyval) (o : option A) : pyval :=
  match o with Some a => inj a | None => VNone end.

Definition VStrs (l : list string) : pyval := VList (map VStr l).

(** [init_data.get(key)] *)
Definition get (init_data : gmap string pyval) (key : string) : pyval :=
  default VNone (init_data !! key).

(** [if not v: v = init_data.get(key)] *)
Definition or_init (v : pyval) (init_data : gmap string pyval) (key : string)
    : pyval :=
  if truthy v then v else get init_data key.

(** The local variables of [extract_place_data] once the fallbacks are
    done. *)
Record fields : Type := Fields {
  f_name : pyval;
  f_place_id : pyval;
  f_coordinates : pyval;
  f_address : pyval;
  f_rating : pyval;
  f_reviews_count : pyval;
  f_categories : pyval;
  f_website : pyval;
  f_phone : pyval
}.

(** Lines 250 to 265: [place_id] and [coordinates] come from [init_data];
    the other fields fall back on it. There is no fallback for [phone]. *)
Definition resolve (r : rendered) (init_data : gmap string pyval) : fields :=
  {| f_name := or_init (of_option VStr (r_name r)) init_data "name";
     f_place_id := get init_data "place_id";
     f_coordinates := get init_data "coordinates";
     f_address := or_init (of_option VStr (r_address r)) init_data "address";
     f_rating := or_init (of_option VFloat (r_rating r)) init_data "rating";
     f_reviews_count :=
       or_init (of_option VInt (r_reviews_count r)) init_data "reviews_count";
     f_categories :=
       or_init (of_option VStrs (r_categories r)) init_data "categories";
     f_website := or_init (of_option VStr (r_website r)) init_data "website";
     f_phone := of_option VStr (r_phone r) |}.

(** [if cond: place_details[key] = v] *)
Definition put_if (cond : bool) (key : string) (v : pyval)
    (place_details : gmap string pyval) : gmap string pyval :=
  if cond then <[key := v]> place_details else place_details.

(** Lines 267 to 286: build the result. *)
Definition build (f : fields) : gmap string pyval :=
  let place_details := ∅ in
  let place_details := put_if (truthy (f_name f)) "name" (f_name f) place_details in
  let place_details :=
    put_if (truthy (f_place_id f)) "place_id" (f_place_id f) place_details in
  let place_details :=
    put_if (truthy (f_coordinates f)) "coordinates" (f_coordinates f) place_details in
  let place_details :=
    put_if (truthy (f_address f)) "address" (f_address f) place_details in
  let place_details :=
    put_if (negb (is_none (f_rating f))) "rating" (f_rating f) place_details in
  let place_details :=
    put_if (negb (is_none (f_reviews_count f))) "reviews_count"
      (f_reviews_count f) place_details in
  let place_details :=
    put_if (truthy (f_categories f)) "categories" (f_categories f) place_details in
  let place_details :=
    put_if (truthy (f_website f)) "website" (f_website f) place_details in
  let place_details :=
    put_if (truthy (f_phone f)) "phone" (f_phone f) place_details in
  place_details.

(** [html_content] is [None], or a string. [None] as a result is
    Python's [None]. *)
Definition extract_place_data (html_content : option string)
    : option (gmap string pyval) :=
  match html_content with
  | None => None
  | Some html =>
      if is_empty html then None
      else
        let place_details := build (resolve (rendered_of html) (init_data_of html)) in
        if bool_decide (place_details = ∅) then None else Some place_details
  end.

End Decoder.

End Extractor.

(** ** A reference JSON decoder

    The theorems below hold for every [json_loads]. The examples need
    one: [Json.loads] decodes the JSON grammar as [json.loads] does
    (including [NaN] and [Infinity]), over the text model of this file:
    a [\u] escape beyond U+00FF, which the text model cannot hold, is
    refused, and there is no recursion limit. *)

Module Json.
Import Text Value.

(** The whitespace of JSON: space, tab, line feed, carriage return. *)
Definition is_ws (c : ascii) : bool :=
  ((code c =? 32) || (code c =? 9) || (code c =? 10) || (code c =? 13))%N.

Definition skip_ws (s : string) : string := lstrip_by is_ws s.

Fixpoint span (p : ascii -> bool) (s : string) : string * string :=
  match s with
  | String c s' =>
      if p c then let '(a, b) := span p s' in (String c a, b)
      else (EmptyString, s)
  | EmptyString => (EmptyString, EmptyString)
  end.

Definition hex_value (c : ascii) : option N :=
  if is_digit c then Some (code c - 48)%N
  else if in_range 97 102 c then Some (code c - 87)%N
  else if in_range 65 70 c then Some (code c - 55)%N
  else None.

Definition escape (c : ascii) : option ascii :=
  if Ascii.eqb c dquote then Some dquote
  else if Ascii.eqb c "\" then Some "\"%char
  else if Ascii.eqb c "/" then Some "/"%char
  else if Ascii.eqb c "b" then Some "008"%char
  else if Ascii.eqb c "f" then Some "012"%char
  else if Ascii.eqb c "n" then Some newline
  else if Ascii.eqb c "r" then Some "013"%char
  else if Ascii.eqb c "t" then Some "009"%char
  else None.

(** After the opening quote: the string's text and what follows the
    closing quote. *)
Fixpoint string_body (s : string) : option (string * string) :=
  match s with
  | EmptyString => None
  | String c s' =>
      if Ascii.eqb c dquote then Some (EmptyString, s')
      else if Ascii.eqb c "\" then
        match s' with
        | String "u" (String h1 (String h2 (String h3 (String h4 s5)))) =>
            a ← hex_value h1; b ← hex_value h2; c ← hex_value h3; d ← hex_value h4;
            let n := (((a * 16 + b) * 16 + c) * 16 + d)%N in
            if (n <? 256)%N
            then '(t, r) ← string_body s5; Some (String (ascii_of_N n) t, r)
            else None
        | String e s'' =>
            x ← escape e; '(t, r) ← string_body s''; Some (String x t, r)
        | EmptyString => None
        end
      else if (code c <? 32)%N then None
      else '(t, r) ← string_body s'; Some (String c t, r)
  end.

(** A number: an optional minus, then [0] or a run of digits that does
    not start with [0], then an optional fraction (a period and digits)
    and an optional exponent ([e] or [E], an optional sign, digits). It
    is an [int] when there is neither fraction nor exponent, a [float]
    otherwise. The conversions are those of [int] and [float]: an
    integer of more than [INT_MAX_STR_DIGITS] digits is an error (a
    [ValueError], of which the decoder's own error is a subclass), a
    float beyond the range of a double is an infinity. *)
Definition number (s : string) : option (pyval * string) :=
  let '(negative, s1) :=
    match s with String "-" s' => (true, s') | _ => (false, s) end in
  let '(whole, s2) :=
    match s1 with
    | String "0" s' => ("0", s')
    | _ => span is_digit s1
    end in
  if is_empty whole then None else
  let '(frac, s3) :=
    match s2 with
    | String "." s' =>
        let '(f, r) := span is_digit s' in
        if is_empty f then (None, s2) else (Some f, r)
    | _ => (None, s2)
    end in
  let '(expo, s4) :=
    match s3 with
    | String e s' =>
        if Ascii.eqb e "e" || Ascii.eqb e "E" then
          let '(minus, s'') :=
            match s' with
            | String "-" t => (true, t)
            | String "+" t => (false, t)
            | _ => (false, s')
            end in
          let '(x, r) := span is_digit s'' in
          match digits_value 0 x with
          | Some v => if is_empty x then (None, s3)
                      else (Some (if minus then - v else v), r)
          | None => (None, s3)
          end
        else (None, s3)
    | EmptyString => (None, s3)
    end in
  let sign (z : Z) := if negative then - z else z in
  match frac, expo with
  | None, None =>
      if (INT_MAX_STR_DIGITS <? String.length whole)%nat then None
      else m ← digits_value 0 whole; Some (VInt (sign m), s4)
  | _, _ =>
      let f := default EmptyString frac in
      m ← digits_value 0 (whole +:+ f);
      Some (VFloat (to_double (sign m)
                      (default 0 expo - Z.of_nat (String.length f))), s4)
  end.

(** [d[key] = v] on the pairs of an object: a repeated key keeps its
    place and takes the last value. *)
Fixpoint assign (key : string) (v : pyval) (d : list (string * pyval))
    : list (string * pyval) :=
  match d with
  | [] => [(key, v)]
  | (k, w) :: d' =>
      if String.eqb k key then (k, v) :: d' else (k, w) :: assign key v d'
  end.

Section Containers.
(** The decoder of one value, for the items of a container. *)
Variable value : string -> option (pyval * string).

(** After an item: [,] and the next item, or the closing bracket. *)
Fixpoint items (fuel : nat) (acc : list pyval) (s : string)
    : option (pyval * string) :=
  match fuel with
  | O => None
  | S fuel' =>
      '(v, r) ← value s;
      match skip_ws r with
      | String "]" r' => Some (VList (acc ++ [v]), r')
      | String "," r' => items fuel' (acc ++ [v]) (skip_ws r')
      | _ => None
      end
  end.

Fixpoint members (fuel : nat) (acc : list (string * pyval)) (s : string)
    : option (pyval * string) :=
  match fuel with
  | O => None
  | S fuel' =>
      match s with
      | String q s1 =>
          if Ascii.eqb q dquote then
            '(key, r) ← string_body s1;
            match skip_ws r with
            | String ":" r1 =>
                '(v, r2) ← value (skip_ws r1);
                match skip_ws r2 with
                | String "}" r' => Some (VDict (assign key v acc), r')
                | String "," r' => members fuel' (assign key v acc) (skip_ws r')
                | _ => None
                end
            | _ => None
            end
          else None
      | EmptyString => None
      end
  end.
End Containers.

Fixpoint value (fuel : nat) (s : string) : option (pyval * string) :=
  match fuel with
  | O => None
  | S fuel' =>
      match s with
      | String c s' =>
          if Ascii.eqb c dquote then
            '(t, r) ← string_body s'; Some (VStr t, r)
          else if Ascii.eqb c "[" then
            match skip_ws s' with
            | String "]" r => Some (VList [], r)
            | r => items (value fuel') (String.length s) [] r
            end
          else if Ascii.eqb c "{" then
            match skip_ws s' with
            | String "}" r => Some (VDict [], r)
            | r => members (value fuel') (String.length s) [] r
            end
          else if startswith "null" s then Some (VNone, drop 4 s)
          else if startswith "true" s then Some (VBool true, drop 4 s)
          else if startswith "false" s then Some (VBool false, drop 5 s)
          else if startswith "NaN" s then Some (VFloat FNaN, drop 3 s)
          else if startswith "Infinity" s then Some (VFloat (FInf false), drop 8 s)
          else if startswith "-Infinity" s then Some (VFloat (FInf true), drop 9 s)
          else number s
      | EmptyString => None
      end
  end.

(** [json.loads(s)] *)
Definition loads (s : string) : exn + pyval :=
  match value (S (String.length s)) (skip_ws s) with
  | Some (v, r) => if is_empty (skip_ws r) then inr v else inl JSONDecodeError
  | None => inl JSONDecodeError
  end.

End Json.

(** ** scraper.py *)

Module Scraper.
Import Text Value Extractor.

Definition MAX_SCROLL_ATTEMPTS_WITHOUT_NEW_LINKS : nat := 15.

(** *** The website probe *)

(** What a driver call raises: [PlaywrightTimeoutError], or another
    [Exception], each with its text, [str(e)]. *)
Inductive raised : Type :=
  | PlaywrightTimeoutError (message : string)
  | OtherException (message : string).

(** What [await page.goto(...)] does: it raises, or it returns a
    response (of which the probe reads the status) or [None]. *)
Definition goto_result : Type := raised + option Z.

Definition FORBIDDEN_KEYWORDS : list string :=
  ["forbidden"; "permission"; "access denied"; "unauthorized"].

(** The [try] block of [try_load_website]. *)
Definition probe_body (response : goto_result) : raised + string :=
  match response with
  | inl e => inl e
  | inr (Some status_code) =>
      if bool_decide (status_code ∈ [403; 401; 451]) then inr "forbidden"
      else if 400 <=? status_code then inr "error"
      else inr "accessible"
  | inr None => inr "error"
  end.

(** The two [except] clauses, in the order of the source. *)
Definition try_load_website (response : goto_result) : raised + string :=
  match probe_body response with
  | inr status => inr status
  | inl (PlaywrightTimeoutError _) => inr "timeout"
  | inl (OtherException message) =>
      let error_str := lower message in
      if existsb (fun keyword => contains keyword error_str) FORBIDDEN_KEYWORDS
      then inr "forbidden" else inr "error"
  end.

(** *** Link collection *)

(** What one pass of the scroll loop sees: the links under the feed
    after the scroll, the scroll height, and the number of end-of-list
    markers. The last two are read only if the loop gets that far. *)
Record scroll_obs : Type := ScrollObs {
  current_links_list : list string;
  new_height : Z;
  end_marker_count : nat
}.

Record scroll_state : Type := ScrollState {
  place_links : gset string;
  last_height : Z;
  scroll_attempts_no_new : nat
}.

(** The three [break]s of the loop. *)
Inductive exit : Type := ReachedMax | ReachedEnd | NoNewLinks.

Inductive step : Type :=
  | Continue (st : scroll_state)
  | Break (why : exit) (links : gset string).

(** [l[:n]] for a Python integer [n]: a negative [n] counts from the end. *)
Definition slice_to {A} (n : Z) (l : list A) : list A :=
  if 0 <=? n then firstn (Z.to_nat n) l
  else firstn (length l - Z.to_nat (- n)) l.

Section Collector.

(** [list(place_links)]: Python lists a set in an order of its own. *)
Variable set_to_list : gset string -> list string.
Hypothesis set_to_list_perm : forall s, set_to_list s ≡ₚ elements s.

(** One pass of [while True], from the extraction of the links on. *)
Definition scroll_step (max_places : option Z) (st : scroll_state)
    (obs : scroll_obs) : step :=
  let current_links : gset string := list_to_set (current_links_list obs) in
  let new_links_found := negb (bool_decide (current_links ∖ place_links st = ∅)) in
  let place_links := place_links st ∪ current_links in
  let capped :=
    match max_places with
    | Some m => Z.of_nat (size place_links) >=? m
    | None => false
    end in
  if capped then
    Break ReachedMax
      (list_to_set (slice_to (default 0 max_places) (set_to_list place_links)))
  else if new_height obs =? last_height st then
    if (0 <? end_marker_count obs)%nat then Break ReachedEnd place_links
    else if negb new_links_found then
      let attempts := S (scroll_attempts_no_new st) in
      if (MAX_SCROLL_ATTEMPTS_WITHOUT_NEW_LINKS <=? attempts)%nat
      then Break NoNewLinks place_links
      else Continue (ScrollState place_links (last_height st) attempts)
    else Continue (ScrollState place_links (last_height st) 0)
  else Continue (ScrollState place_links (new_height obs) 0).

(** How link collection ends. [Collected why links]: the per-item loop
    starts on [links]; [why] is the [break] taken, [None] when the scroll
    loop was not entered. [NoResults]: the early [return []]. [Aborted]:
    a driver call raised, the outer handler returns the empty [results].
    [Scrolling]: the passes described are over and the loop goes on. *)
Inductive collection : Type :=
  | Collected (why : option exit) (links : gset string)
  | NoResults
  | Aborted
  | Scrolling (st : scroll_state).

(** The loop over what the successive passes see; [inl] is a pass in
    which a driver call raised. *)
Fixpoint scroll_loop (max_places : option Z) (st : scroll_state)
    (passes : list (raised + scroll_obs)) : collection :=
  match passes with
  | [] => Scrolling st
  | inl _ :: _ => Aborted
  | inr obs :: passes' =>
      match scroll_step max_places st obs with
      | Continue st' => scroll_loop max_places st' passes'
      | Break why links => Collected (Some why) links
      end
  end.

(** How the wait for the feed ends: the feed is visible, or the wait
    timed out on a page of the given URL, or it raised otherwise. *)
Inductive feed_wait : Type :=
  | FeedVisible
  | FeedTimeout (page_url : string)
  | FeedError.

(** From the wait for the feed to the start of the per-item loop.
    [feed_count] is [page.locator(feed_selector).count()], [height] the
    scroll height read before the loop. *)
Definition collect_links (max_places : option Z) (wait : feed_wait)
    (feed_count : nat) (height : Z) (passes : list (raised + scroll_obs))
    : collection :=
  let start (place_links : gset string) :=
    if (0 <? feed_count)%nat
    then scroll_loop max_places (ScrollState place_links height 0) passes
    else Collected None place_links in
  match wait with
  | FeedVisible => start ∅
  | FeedTimeout page_url =>
      if contains "/maps/place/" page_url then start {[ page_url ]}
      else NoResults
  | FeedError => Aborted
  end.

End Collector.

(** *** The per-item loop *)

Definition NEEDS_ACCESS : string := "Potreban pristup".
Definition TIMED_OUT : string := "Timeout".
(** The two sentinels below hold letters beyond U+00FF; they stand here
    in their UTF-8 bytes. *)
Definition LOAD_ERROR : string := "Greška pri učitavanju".
Definition CHECK_ERROR : string := "Greška pri provjeri".

(** [place_data['website'] = sentinel; place_data['original_website'] = website_url] *)
Definition mark_website (sentinel : string) (website_url : pyval)
    (place_data : gmap string pyval) : gmap string pyval :=
  <["original_website" := website_url]> (<["website" := VStr sentinel]> place_data).

(** [website_url in ['', 'N/A', None]] *)
Definition is_placeholder (website_url : pyval) : bool :=
  match website_url with
  | VNone => true
  | VStr s => String.eqb s EmptyString || String.eqb s "N/A"
  | _ => false
  end.

(** The branches on [website_status], and the handler around the call. *)
Definition record_status (status : raised + string) (website_url : pyval)
    (place_data : gmap string pyval) : gmap string pyval :=
  match status with
  | inr website_status =>
      if String.eqb website_status "accessible" then place_data
      else if String.eqb website_status "forbidden"
      then mark_website NEEDS_ACCESS website_url place_data
      else if String.eqb website_status "timeout"
      then mark_website TIMED_OUT website_url place_data
      else if String.eqb website_status "error"
      then mark_website LOAD_ERROR website_url place_data
      else place_data
  | inl _ => mark_website CHECK_ERROR website_url place_data
  end.

Section Orchestrator.

Variable json_loads : string -> exn + pyval.

(** One pass of the per-item loop. [page] is what navigating to the link
    and reading the page content gives, the markup or a raised error;
    [probe] is what the driver answers if the website is visited. *)
Definition process_link (link : string) (page : raised + string)
    (probe : goto_result) (results : list (gmap string pyval))
    : list (gmap string pyval) :=
  match page with
  | inl _ => results
  | inr html_content =>
      match extract_place_data json_loads (Some html_content) with
      | Some place_data =>
          if bool_decide (place_data = ∅) then results
          else
            let place_data := <["link" := VStr link]> place_data in
            let website_url := default (VStr EmptyString) (place_data !! "website") in
            let place_data :=
              if truthy website_url && negb (is_placeholder website_url)
              then record_status (try_load_website probe) website_url place_data
              else place_data in
            results ++ [place_data]
      | None => results
      end
  end.

(** [for link in place_links], over what each visit gives. *)
Fixpoint process_links (visits : list (string * (raised + string) * goto_result))
    (results : list (gmap string pyval)) : list (gmap string pyval) :=
  match visits with
  | [] => results
  | (link, page, probe) :: visits' =>
      process_links visits' (process_link link page probe results)
  end.

End Orchestrator.

(** *** The run as a whole *)

Section Run.

Variable json_loads : string -> exn + pyval.

(** [list(place_links)] where the bound cuts the set, and the order in
    which [for link in place_links] goes through it. *)
Variable set_to_list : gset string -> list string.
Variable iteration_order : gset string -> list string.

(** What the driver answers during a run. [opening]: whether a call made
    before the per-item loop, other than the wait for the feed and the
    calls of the scroll passes, raised (the launch, the context, the
    page, the navigation to the search URL, the reads of the feed before
    the scroll loop); the handler around the consent form lets nothing
    out. [feed_outcome], [feeds], [start_height] and [scroll_passes]:
    what link collection meets. [visit link]: what the visit of a link
    gives, the page and what the website probe would be answered. *)
Record run : Type := Run {
  opening : option raised;
  feed_outcome : feed_wait;
  feeds : nat;
  start_height : Z;
  scroll_passes : list (raised + scroll_obs);
  visit : string -> (raised + string) * goto_result
}.

(** The list returned, when the function returns. An exception before
    the per-item loop is caught by the outer handler while [results] is
    still empty; in the per-item loop every visit has a handler of its
    own. [None]: the scroll loop has not ended within the passes
    described. The start of the driver and the closing of the browser in
    the [finally] clause, which stand outside the handlers and may raise
    out of the function, are not part of the model. *)
Definition scrape_google_maps (max_places : option Z) (r : run)
    : option (list (gmap string pyval)) :=
  match opening r with
  | Some _ => Some []
  | None =>
      match collect_links set_to_list max_places (feed_outcome r) (feeds r)
              (start_height r) (scroll_passes r) with
      | Collected _ place_links =>
          Some (process_links json_loads
                  (map (fun link => (link, (visit r link).1, (visit r link).2))
                     (iteration_order place_links))
                  [])
      | NoResults | Aborted => Some []
      | Scrolling _ => None
      end
  end.

End Run.

(** *** Pacing *)

Definition BREAK_INTERVAL : Z := 10.

(** The multiplier of the delay, by the number of places processed. *)
Definition calculate_fatigue_delay (place_count : Z) : pyfloat :=
  if place_count <? 20 then FDec 10 (-1)
  else if place_count <? 50 then FDec 12 (-1)
  else if place_count <? 100 then FDec 15 (-1)
  else if place_count <? 200 then FDec 18 (-1)
  else FDec 22 (-1).

(** The test of [smart_delay] for the periodic break:
    [place_count > 0 and place_count % BREAK_INTERVAL == 0]. The delay
    it returns is floating-point arithmetic on random draws, and is not
    part of the model. *)
Definition break_due (place_count : Z) : bool :=
  (0 <? place_count) && (place_count mod BREAK_INTERVAL =? 0).

(** The values [count] takes in the per-item loop over [n] links:
    [count = 0] before the loop, [count += 1] at the top of each pass. *)
Definition counts (n : nat) : list Z := map Z.of_nat (seq 1 n).

(** *** [natural_scroll] *)

(** One pass of the loop of [natural_scroll]: the increment drawn by
    [random.randint(100, 400)], whether the assignment of the scroll
    position raised, and what the read of the scroll height gave. *)
Record scroll_tick : Type := ScrollTick {
  scroll_increment : Z;
  scroll_to : option raised;
  new_total_height : raised + Z
}.

(** How the loop stands when the ticks described are used up or the
    function has returned. *)
Inductive scroll_end : Type :=
  | Returned (current_position total_height : Z)
  | Raised
  | StillScrolling.

Fixpoint natural_scroll_loop (current_position total_height : Z)
    (ticks : list scroll_tick) : scroll_end :=
  if current_position <? total_height then
    match ticks with
    | [] => StillScrolling
    | tick :: ticks' =>
        let current_position := current_position + scroll_increment tick in
        match scroll_to tick, new_total_height tick with
        | Some _, _ => Raised
        | None, inl _ => Raised
        | None, inr new_total_height =>
            natural_scroll_loop current_position
              (if total_height <? new_total_height
               then new_total_height else total_height)
              ticks'
        end
    end
  else Returned current_position total_height.

(** [scroll_height] is the first read of the height. The value returned:
    the final position, or 0 from the handler. *)
Definition natural_scroll (scroll_height : raised + Z) (ticks : list scroll_tick)
    : option Z :=
  match scroll_height with
  | inl _ => Some 0
  | inr total_height =>
      match natural_scroll_loop 0 total_height ticks with
      | Returned current_position _ => Some current_position
      | Raised => Some 0
      | StillScrolling => None
      end
  end.

(** *** The search URL *)

Definition BASE_URL : string := "https://www.google.com/maps/search/".

(** The characters [urllib.parse.quote] never escapes: the ASCII letters
    and digits and [_.-~]. *)
Definition is_unreserved (c : ascii) : bool :=
  in_range 65 90 c || in_range 97 122 c || is_digit c
  || contains (String c EmptyString) "_.-~".

Definition hex_digit (n : N) : ascii :=
  default "0"%char (String.get (N.to_nat n) "0123456789ABCDEF").

(** [%XX] for a byte. *)
Definition percent (byte : N) : string :=
  String "%" (String (hex_digit (byte / 16)) (String (hex_digit (byte mod 16)) EmptyString)).

(** The UTF-8 bytes of a code point below 256. *)
Definition utf8 (c : ascii) : list N :=
  if (code c <? 128)%N then [code c]
  else [(192 + code c / 64)%N; (128 + code c mod 64)%N].

(** [quote_plus(s, safe='')]: a space becomes [+], an unreserved
    character stays, every other character is escaped byte by byte. *)
Fixpoint quote_plus (s : string) : string :=
  match s with
  | EmptyString => EmptyString
  | String c s' =>
      (if Ascii.eqb c " " then "+"
       else if is_unreserved c then String c EmptyString
       else join EmptyString (map percent (utf8 c)))
      +:+ quote_plus s'
  end.

(** [urlencode(params)] for a dictionary of strings, in its order. *)
Definition urlencode (params : list (string * string)) : string :=
  join "&" (map (fun '(k, v) => quote_plus k +:+ "=" +:+ quote_plus v) params).

(** [geo_coordinates] and [zoom] are accepted and not used. *)
Definition create_search_url (query lang : string)
    (geo_coordinates zoom : pyval) : string :=
  BASE_URL +:+ "?" +:+ urlencode [("q", query); ("hl", lang)].

End Scraper.

(** * Vocabulary of the statements *)

Import Text Re Value Effect Extractor Scraper.

(** The text of a raised error mentions one of the keywords, whatever its
    case. *)
Definition mentions_keyword (message : string) : Prop :=
  exists keyword, keyword ∈ FORBIDDEN_KEYWORDS /\ contains keyword (lower message) = true.

(** What [build] stores under a key: the value, when it passes the test
    of that key. *)
Definition kept (cond : bool) (v : pyval) : option pyval :=
  if cond then Some v else None.

(** The keys [extract_place_data] may put in a record. *)
Definition FIELD_NAMES : list string :=
  ["name"; "place_id"; "coordinates"; "address"; "rating"; "reviews_count";
   "categories"; "website"; "phone"].

(** The record takes the field [key] from the structured source alone:
    what it holds there is the structured value, and a truthy structured
    value is always taken. *)
Definition structured_only (init_data : gmap string pyval) (key : string)
    (place_details : gmap string pyval) : Prop :=
  (forall v, place_details !! key = Some v -> init_data !! key = Some v)
  /\ (forall v, init_data !! key = Some v -> truthy v = true ->
      place_details !! key = Some v).

(** The record takes the field [key] from the rendered source first: a
    truthy rendered value [rv] is what the record holds, and the
    structured source is used only when [rv] is falsy ([None] included). *)
Definition rendered_first (rv : pyval) (init_data : gmap string pyval)
    (key : string) (place_details : gmap string pyval) : Prop :=
  (truthy rv = true -> place_details !! key = Some rv)
  /\ (truthy rv = false -> structured_only init_data key place_details).

(** Every rendered-markup extractor returned [None]. *)
Definition no_fields : rendered := Rendered None None None None None None None.

(** A computation keeps an invariant of [result], whether it returns or
    raises. *)
Definition preserves {A} (P : gmap string pyval -> Prop) (m : M A) : Prop :=
  forall d, P d -> P (m d).2.

(** The keys the structured parser may write. Of these, the legacy blob
    records a rating or a review count only when it is truthy. *)
Definition STRUCTURED_FIELDS : list string :=
  ["name"; "place_id"; "coordinates"; "rating"; "reviews_count"; "website";
   "address"; "categories"].

(** An entry the structured parser may have written. *)
Definition structured_field (key : string) (v : pyval) : Prop :=
  key ∈ STRUCTURED_FIELDS
  /\ (key = "rating" \/ key = "reviews_count" -> truthy v = true).

(** A dictionary the structured parser may return. *)
Definition field_set (d : gmap string pyval) : Prop :=
  map_Forall structured_field d.

(** A pass in which nothing moves: the scroll height is the one already
    known, every link seen is already collected, and there is no
    end-of-list marker. *)
Definition stalled (links : gset string) (height : Z) (pass : raised + scroll_obs)
    : Prop :=
  exists obs,
    pass = inr obs
    /\ new_height obs = height
    /\ list_to_set (current_links_list obs) ⊆ links
    /\ end_marker_count obs = 0%nat.

(** The loop leaves by the end-of-list marker: after the passes [before]
    it stands in [st'], and the next pass sees an unchanged height and
    the marker. *)
Definition left_at_end_marker set_to_list max_places st passes links : Prop :=
  exists before obs after st',
    passes = before ++ inr obs :: after
    /\ scroll_loop set_to_list max_places st before = Scrolling st'
    /\ new_height obs = last_height st'
    /\ (0 < end_marker_count obs)%nat
    /\ links = place_links st' ∪ list_to_set (current_links_list obs).

(** The loop leaves for lack of progress: after the passes [before] it
    stands in [st'], and the [n] passes that follow are all stalled. *)
Definition left_after_stall set_to_list max_places st passes links (n : nat)
    : Prop :=
  exists before last after st',
    passes = before ++ last ++ after
    /\ scroll_loop set_to_list max_places st before = Scrolling st'
    /\ length last = n
    /\ Forall (stalled (place_links st') (last_height st')) last
    /\ links = place_links st'.

(** Every character of [s] is in the class [p]. *)
Fixpoint all_chars (p : ascii -> bool) (s : string) : bool :=
  match s with
  | EmptyString => true
  | String c s' => p c && all_chars p s'
  end.

(** [m] opens no suffix of [pre +:+ m] that starts inside [pre]: the
    first occurrence of [m] in [pre +:+ m] is the one at the end. *)
Fixpoint absent_before (m pre : string) : bool :=
  match pre with
  | EmptyString => true
  | String _ pre' => negb (startswith m (pre +:+ m)) && absent_before m pre'
  end.

(** The literal that opens the pattern of the review count. *)
Definition RATING_MARKER : string := lit "fontDisplayMedium`>".

(** The characters of a count. *)
Definition count_char : ascii -> bool := either is_digit (chr ",").

(** No [>] of the text is followed at once by a character of a count. *)
Fixpoint no_count_yet (s : string) : bool :=
  match s with
  | EmptyString => true
  | String c s' =>
      negb (Ascii.eqb c ">" && first_char count_char s') && no_count_yet s'
  end.

(** The number of occurrences of a character in a text. *)
Fixpoint occurrences (a : ascii) (s : string) : nat :=
  match s with
  | EmptyString => 0
  | String c s' => (if Ascii.eqb c a then 1 else 0) + occurrences a s'
  end.

(** Some character of [s] is in the class [p]. *)
Fixpoint some_char (p : ascii -> bool) (s : string) : bool :=
  match s with
  | EmptyString => false
  | String c s' => p c || some_char p s'
  end.

(** The three sentinels that stand for a website that could not be
    opened. *)
Definition PROBE_SENTINELS : list string := [NEEDS_ACCESS; TIMED_OUT; LOAD_ERROR].

(** [l[i]] when the index is in range and the item is truthy. *)
Definition truthy_at (l : list pyval) (i : nat) : option pyval :=
  l !! i ≫= fun x => if truthy x then Some x else None.

(** [result] after [result.setdefault(key, v)] when there is a value [v]
    to record, [result] itself when there is none. *)
Definition recorded (key : string) (o : option pyval) (d : gmap string pyval)
    : gmap string pyval :=
  match o with
  | Some v => (setdefault key v d).2
  | None => d
  end.

(** [l[i]] when the index is in range and the item is a list. *)
Definition list_at (l : list pyval) (i : nat) : option (list pyval) :=
  l !! i ≫= as_list.

(** The links seen in the passes. *)
Fixpoint seen_links (passes : list (raised + scroll_obs)) : gset string :=
  match passes with
  | [] => ∅
  | inl _ :: passes' => seen_links passes'
  | inr obs :: passes' => list_to_set (current_links_list obs) ∪ seen_links passes'
  end.

(** The links a run holds before the scroll loop: none, or the URL of
    the page when the wait for the feed timed out. *)
Definition start_links (wait : feed_wait) : gset string :=
  match wait with
  | FeedTimeout page_url => {[ page_url ]}
  | FeedVisible | FeedError => ∅
  end.

(** The bound, if any, is not reached by [links]. *)
Definition below_bound (max_places : option Z) (links : gset string) : Prop :=
  match max_places with
  | Some m => Z.of_nat (size links) < m
  | None => True
  end.

(** What [random.randint(100, 400)] may draw. *)
Definition drawn_increment (tick : scroll_tick) : Prop :=
  100 <= scroll_increment tick <= 400.

(** The height read in the tick, if one is read, is at most [limit]. *)
Definition height_within (limit : Z) (tick : scroll_tick) : Prop :=
  forall h, new_total_height tick = inr h -> h <= limit.

(** The order of two decimals whose exponents are at most 0. Rounding to
    the nearest double keeps it: [float_le x y] implies [x <= y] in
    Python. *)
Definition float_le (x y : pyfloat) : Prop :=
  match x, y with
  | FDec m e, FDec m' e' => m * 10 ^ (- e') <= m' * 10 ^ (- e)
  | _, _ => False
  end.

(** The number of periodic breaks in a per-item loop over [n] links. *)
Definition breaks_taken (n : nat) : nat :=
  length (List.filter break_due (counts n)).

(** The characters of an encoded parameter. *)
Definition encoded_char (c : ascii) : bool :=
  is_unreserved c || Ascii.eqb c "%" || Ascii.eqb c "+".

(** The text made of [n] times the character [c]. *)
Fixpoint repeat_char (c : ascii) (n : nat) : string :=
  match n with
  | O => EmptyString
  | S n' => String c (repeat_char c n')
  end.

(** * Properties *)

(** Membership in an explicit list. *)
Ltac in_list := repeat first [apply list_elem_of_here | apply list_elem_of_further].

(** ** The website probe *)

Lemma existsb_keyword (message : string) :
  existsb (fun keyword : string => contains keyword (lower message)) FORBIDDEN_KEYWORDS = true
  <-> mentions_keyword message.
Proof.
  rewrite existsb_exists. unfold mentions_keyword.
  split; intros (k & Hk & Hc); exists k; split; auto;
    by apply list_elem_of_In.
Qed.

(** C2. The probe returns and never raises, with one of the four
    statuses: 401, 403 and 451 give forbidden; any other status from 400
    up gives error; a status below 400 gives accessible; no response
    gives error; a timeout exception gives timeout; any other exception
    gives forbidden when its text mentions a keyword, error otherwise. *)
Theorem try_load_website_classifies :
  forall response : goto_result,
    (exists status,
        try_load_website response = inr status
        /\ status ∈ ["accessible"; "forbidden"; "timeout"; "error"])
    /\ (forall code, response = inr (Some code) -> code ∈ [403; 401; 451] ->
        try_load_website response = inr "forbidden")
    /\ (forall code, response = inr (Some code) -> 400 <= code ->
        code ∉ [403; 401; 451] -> try_load_website response = inr "error")
    /\ (forall code, response = inr (Some code) -> code < 400 ->
        try_load_website response = inr "accessible")
    /\ (response = inr None -> try_load_website response = inr "error")
    /\ (forall message, response = inl (PlaywrightTimeoutError message) ->
        try_load_website response = inr "timeout")
    /\ (forall message, response = inl (OtherException message) ->
        mentions_keyword message -> try_load_website response = inr "forbidden")
    /\ (forall message, response = inl (OtherException message) ->
        ~ mentions_keyword message -> try_load_website response = inr "error").
Proof.
  intros response. unfold try_load_website, probe_body. repeat split.
  - destruct response as [[message|message]|[code|]].
    + eexists; split; [reflexivity | in_list].
    + case_match; eexists; (split; [reflexivity | in_list]).
    + case_bool_decide; [|destruct (400 <=? code)];
        eexists; (split; [reflexivity | in_list]).
    + eexists; split; [reflexivity | in_list].
  - intros code -> Hin. by rewrite bool_decide_eq_true_2.
  - intros code -> Hge Hnot. rewrite bool_decide_eq_false_2 by done.
    destruct (400 <=? code) eqn:E; [done | lia].
  - intros code -> Hlt. case_bool_decide as Hin.
    + rewrite !elem_of_cons, elem_of_nil in Hin. lia.
    + destruct (400 <=? code) eqn:E; [lia | done].
  - by intros ->.
  - by intros message ->.
  - intros message -> Hk. apply existsb_keyword in Hk. by rewrite Hk.
  - intros message -> Hk.
    case_match eqn:E; [|done].
    by apply existsb_keyword in E.
Qed.

(** A status of 451, a status of 503, and an error whose text mentions
    a denied access. *)
Lemma probe_statuses_example :
  try_load_website (inr (Some 451)) = inr "forbidden"
  /\ try_load_website (inr (Some 503)) = inr "error"
  /\ try_load_website (inl (OtherException "net::ERR_FAILED Access Denied"))
     = inr "forbidden".
Proof.
  refine (conj _ (conj _ _)).
  - destruct (try_load_website_classifies (inr (Some 451))) as (_ & H & _).
    apply (H 451); [reflexivity | in_list].
  - destruct (try_load_website_classifies (inr (Some 503))) as (_ & _ & H & _).
    apply (H 503); [reflexivity | lia |].
    rewrite !not_elem_of_cons. split_and!; try lia. apply not_elem_of_nil.
  - destruct (try_load_website_classifies
                (inl (OtherException "net::ERR_FAILED Access Denied")))
      as (_ & _ & _ & _ & _ & _ & H & _).
    apply (H "net::ERR_FAILED Access Denied"); [reflexivity |].
    exists "access denied". split; [in_list | reflexivity].
Defined.

(** The cases the specification names. *)
Example probe_403 : try_load_website (inr (Some 403)) = inr "forbidden".
Proof. reflexivity. Qed.

Example probe_500 : try_load_website (inr (Some 500)) = inr "error".
Proof. reflexivity. Qed.

Example probe_200 : try_load_website (inr (Some 200)) = inr "accessible".
Proof. reflexivity. Qed.

Example probe_access_denied :
  try_load_website (inl (OtherException "net::ERR Access Denied by host"))
  = inr "forbidden".
Proof. reflexivity. Qed.

Example probe_timeout_wins :
  try_load_website (inl (PlaywrightTimeoutError "Timeout 10000ms exceeded (forbidden)"))
  = inr "timeout".
Proof. reflexivity. Qed.

(** ** Field resolution *)

Lemma lookup_put_if (cond : bool) (key key' : string) (v : pyval)
    (d : gmap string pyval) :
  put_if cond key v d !! key' =
  if bool_decide (key = key') && cond then Some v else d !! key'.
Proof.
  unfold put_if. case_bool_decide; subst; destruct cond; simpl; try done.
  - apply lookup_insert_eq.
  - by apply lookup_insert_ne.
Qed.

Ltac lookup_build :=
  unfold build, kept; rewrite !lookup_put_if; simpl; try rewrite lookup_empty;
  try reflexivity.

Lemma build_name f : build f !! "name" = kept (truthy (f_name f)) (f_name f).
Proof. lookup_build. Qed.
Lemma build_place_id f :
  build f !! "place_id" = kept (truthy (f_place_id f)) (f_place_id f).
Proof. lookup_build. Qed.
Lemma build_coordinates f :
  build f !! "coordinates" = kept (truthy (f_coordinates f)) (f_coordinates f).
Proof. lookup_build. Qed.
Lemma build_address f :
  build f !! "address" = kept (truthy (f_address f)) (f_address f).
Proof. lookup_build. Qed.
Lemma build_rating f :
  build f !! "rating" = kept (negb (is_none (f_rating f))) (f_rating f).
Proof. lookup_build. Qed.
Lemma build_reviews_count f :
  build f !! "reviews_count"
  = kept (negb (is_none (f_reviews_count f))) (f_reviews_count f).
Proof. lookup_build. Qed.
Lemma build_categories f :
  build f !! "categories" = kept (truthy (f_categories f)) (f_categories f).
Proof. lookup_build. Qed.
Lemma build_website f :
  build f !! "website" = kept (truthy (f_website f)) (f_website f).
Proof. lookup_build. Qed.
Lemma build_phone f : build f !! "phone" = kept (truthy (f_phone f)) (f_phone f).
Proof. lookup_build. Qed.

(** A stored value passed the test of its key: it is truthy, or it is a
    rating or a review count other than [None]. *)
Lemma build_lookup_Some f key v :
  build f !! key = Some v ->
  key ∈ FIELD_NAMES
  /\ (truthy v = true
      \/ (key = "rating" \/ key = "reviews_count") /\ is_none v = false).
Proof.
  unfold build. rewrite !lookup_put_if, lookup_empty.
  repeat (case_bool_decide; subst; simpl;
          [ case_match eqn:E; intros [= <-];
            (split; [in_list | first [by left | right; split; [auto | by destruct (is_none _)]]])
          | ]).
  done.
Qed.

Lemma truthy_not_none v : truthy v = true -> is_none v = false.
Proof. by destruct v. Qed.

Lemma kept_None cond v : kept cond v = None <-> cond = false.
Proof. by destruct cond. Qed.

(** The record is empty exactly when no resolved field passes its test. *)
Lemma build_empty f :
  build f = ∅ <->
  truthy (f_name f) = false /\ truthy (f_place_id f) = false
  /\ truthy (f_coordinates f) = false /\ truthy (f_address f) = false
  /\ is_none (f_rating f) = true /\ is_none (f_reviews_count f) = true
  /\ truthy (f_categories f) = false /\ truthy (f_website f) = false
  /\ truthy (f_phone f) = false.
Proof.
  split.
  - intros H.
    pose proof (build_name f) as H1. pose proof (build_place_id f) as H2.
    pose proof (build_coordinates f) as H3. pose proof (build_address f) as H4.
    pose proof (build_rating f) as H5. pose proof (build_reviews_count f) as H6.
    pose proof (build_categories f) as H7. pose proof (build_website f) as H8.
    pose proof (build_phone f) as H9.
    rewrite H, lookup_empty in H1, H2, H3, H4, H5, H6, H7, H8, H9.
    symmetry in H1, H2, H3, H4, H5, H6, H7, H8, H9.
    apply kept_None in H1, H2, H3, H4, H5, H6, H7, H8, H9.
    apply negb_false_iff in H5, H6.
    by repeat split.
  - intros (H1 & H2 & H3 & H4 & H5 & H6 & H7 & H8 & H9).
    unfold build. by rewrite H1, H2, H3, H4, H5, H6, H7, H8, H9.
Qed.

Lemma kept_get_structured (test : pyval -> bool) init_data key d :
  (forall v, truthy v = true -> test v = true) ->
  test VNone = false ->
  d !! key = kept (test (get init_data key)) (get init_data key) ->
  structured_only init_data key d.
Proof.
  intros Htest Hnone Hd. unfold structured_only. rewrite Hd.
  unfold kept, get. split; intros v.
  - destruct (init_data !! key) as [w|]; simpl.
    + case_match; [by intros [= ->] | done].
    + by rewrite Hnone.
  - intros -> Hv. simpl. by rewrite (Htest _ Hv).
Qed.

Lemma kept_or_init_rendered_first (test : pyval -> bool) rv init_data key d :
  (forall v, truthy v = true -> test v = true) ->
  test VNone = false ->
  d !! key = kept (test (or_init rv init_data key)) (or_init rv init_data key) ->
  rendered_first rv init_data key d.
Proof.
  intros Htest Hnone Hd. unfold or_init in Hd. split; intros Hrv; rewrite Hrv in Hd.
  - simpl. rewrite Hd. unfold kept. by rewrite (Htest _ Hrv).
  - by eapply kept_get_structured.
Qed.

Lemma not_none_of_truthy v : truthy v = true -> negb (is_none v) = true.
Proof. by destruct v. Qed.

(** C1. In the merged record, place_id and coordinates come from the
    structured source only. For name, rating, reviews_count, address,
    website and categories, a truthy rendered value is the one the record
    holds, and the structured value is used only when the rendered value
    is falsy or absent. The record that [extract_place_data] returns is
    this merged record. *)
Theorem field_resolution_precedence :
  forall (r : rendered) (init_data : gmap string pyval),
    let place_details := build (resolve r init_data) in
    structured_only init_data "place_id" place_details
    /\ structured_only init_data "coordinates" place_details
    /\ rendered_first (of_option VStr (r_name r)) init_data "name" place_details
    /\ rendered_first (of_option VFloat (r_rating r)) init_data "rating" place_details
    /\ rendered_first (of_option VInt (r_reviews_count r)) init_data
         "reviews_count" place_details
    /\ rendered_first (of_option VStr (r_address r)) init_data "address" place_details
    /\ rendered_first (of_option VStr (r_website r)) init_data "website" place_details
    /\ rendered_first (of_option VStrs (r_categories r)) init_data
         "categories" place_details
    /\ (forall json_loads html d,
          r = rendered_of html -> init_data = init_data_of json_loads html ->
          extract_place_data json_loads (Some html) = Some d -> d = place_details).
Proof.
  intros r init_data place_details. subst place_details.
  refine (conj _ (conj _ (conj _ (conj _ (conj _ (conj _ (conj _ (conj _ _)))))))).
  - apply (kept_get_structured truthy); [auto | done | apply build_place_id].
  - apply (kept_get_structured truthy); [auto | done | apply build_coordinates].
  - apply (kept_or_init_rendered_first truthy); [auto | done | apply build_name].
  - apply (kept_or_init_rendered_first (fun v => negb (is_none v)));
      [apply not_none_of_truthy | done | apply build_rating].
  - apply (kept_or_init_rendered_first (fun v => negb (is_none v)));
      [apply not_none_of_truthy | done | apply build_reviews_count].
  - apply (kept_or_init_rendered_first truthy); [auto | done | apply build_address].
  - apply (kept_or_init_rendered_first truthy); [auto | done | apply build_website].
  - apply (kept_or_init_rendered_first truthy); [auto | done | apply build_categories].
  - intros json_loads html d -> ->. unfold extract_place_data.
    destruct (is_empty html); [done |].
    case_bool_decide; [done | by intros [= <-]].
Qed.

(** A record with a rendered name, an empty rendered address and a zero
    rendered review count, against a structured source that has all
    three and a place id: the rendered name stays, the address and the
    count come from the structured source, and so does the place id. *)
Lemma field_resolution_example :
  let r := Rendered (Some "Cafe Roma") None (Some 0) (Some EmptyString) None None None in
  let init_data : gmap string pyval :=
    <["name" := VStr "Roma (old)"]> (<["place_id" := VStr "0x1:0x2"]>
    (<["address" := VStr "12 Rue de Paris"]> (<["reviews_count" := VInt 7]> ∅))) in
  let place_details := build (resolve r init_data) in
  place_details !! "name" = Some (VStr "Cafe Roma")
  /\ place_details !! "place_id" = Some (VStr "0x1:0x2")
  /\ place_details !! "address" = Some (VStr "12 Rue de Paris")
  /\ place_details !! "reviews_count" = Some (VInt 7).
Proof.
  intros r init_data place_details.
  destruct (field_resolution_precedence r init_data)
    as (Hid & _ & Hname & _ & Hcount & Haddr & _).
  refine (conj _ (conj _ (conj _ _))).
  - apply (proj1 Hname). reflexivity.
  - apply (proj2 Hid); reflexivity.
  - apply (proj2 (proj2 Haddr eq_refl)); reflexivity.
  - apply (proj2 (proj2 Hcount eq_refl)); reflexivity.
Defined.

(** ** Records and empty extractions *)

(** C9. For a page markup that is [None] or the empty string,
    [extract_place_data] returns [None] at once, whatever the decoder. *)
Theorem extract_place_data_no_markup :
  forall json_loads,
    extract_place_data json_loads None = None
    /\ extract_place_data json_loads (Some EmptyString) = None.
Proof. intros json_loads. split; reflexivity. Qed.

Lemma extract_place_data_Some json_loads html d :
  extract_place_data json_loads (Some html) = Some d ->
  d = build (resolve (rendered_of html) (init_data_of json_loads html)) /\ d <> ∅.
Proof.
  unfold extract_place_data. destruct (is_empty html); [done |].
  case_bool_decide; [done |]. by intros [= <-].
Qed.

Lemma build_no_fields : build (resolve no_fields ∅) = ∅.
Proof. reflexivity. Qed.

(** C3. A record is appended for a link only if the extraction found a
    field: some field other than link holds a value that is truthy, or a
    rating or review count that is not [None]. When every rendered
    extractor returns [None] and the structured parser returns the empty
    field set, [extract_place_data] returns [None] and the per-item step
    leaves the run output as it was. *)
Theorem no_record_without_fields :
  forall json_loads html link probe results,
    (process_link json_loads link (inr html) probe results <> results ->
     exists key v,
       key ∈ FIELD_NAMES
       /\ build (resolve (rendered_of html) (init_data_of json_loads html)) !! key
          = Some v
       /\ (truthy v = true
           \/ (key = "rating" \/ key = "reviews_count") /\ is_none v = false))
    /\ (rendered_of html = no_fields -> init_data_of json_loads html = ∅ ->
        extract_place_data json_loads (Some html) = None
        /\ process_link json_loads link (inr html) probe results = results).
Proof.
  intros json_loads html link probe results. split.
  - unfold process_link.
    destruct (extract_place_data json_loads (Some html)) as [d|] eqn:E; [|done].
    apply extract_place_data_Some in E as [-> Hne].
    intros _. apply map_choose in Hne as (key & v & Hkv).
    exists key, v. split_and!; [| done |]; by apply build_lookup_Some in Hkv as [? ?].
  - intros Hr Hi.
    assert (extract_place_data json_loads (Some html) = None) as E.
    { unfold extract_place_data. destruct (is_empty html); [done |].
      by rewrite Hr, Hi, build_no_fields. }
    split; [done |]. unfold process_link. by rewrite E.
Qed.

(** A page with none of the markers: no record, nothing appended. *)
Lemma no_record_for_blank_page :
  let html := "<html><body><p>This page is not available.</p></body></html>" in
  extract_place_data Json.loads (Some html) = None
  /\ process_link Json.loads "https://www.google.com/maps/place/x"
       (inr html) (inr None) [] = [].
Proof.
  intros html.
  apply (no_record_without_fields Json.loads html); vm_compute; reflexivity.
Defined.

(** The scenario of the specification: a heading, a rating block, a
    review text and an address label, and no structured blob. The [é] of
    the name is the code point 233. *)
Example cafe_roma_scenario :
  let name := "Caf" +:+ String "233"%char " Roma" in
  let html :=
    lit "<h1 class=`DUwDvf`>" +:+ name +:+ lit "</h1>"
    +:+ lit "<div class=`fontDisplayMedium`>4.5</div>"
    +:+ lit "<span aria-label=`128 reviews`>128 reviews</span>"
    +:+ lit "<button aria-label=`Address: 12 Rue de Paris `></button>" in
  extract_place_data Json.loads (Some html)
  = Some (<["name" := VStr name]> (<["rating" := VFloat (FDec 45 (-1))]>
         (<["reviews_count" := VInt 128]> {[ "address" := VStr "12 Rue de Paris" ]}))).
Proof. vm_compute. reflexivity. Qed.

(** ** The structured-state parser *)

Section Preserves.
Context (P : gmap string pyval -> Prop).

Lemma preserves_ret {A} (a : A) : preserves P (ret a).
Proof. by intros d. Qed.

Lemma preserves_pass : preserves P pass.
Proof. by intros d. Qed.

Lemma preserves_lift {A} (r : exn + A) : preserves P (lift r).
Proof. by intros d. Qed.

Lemma preserves_bind {A B} (m : M A) (f : A -> M B) :
  preserves P m -> (forall a, preserves P (f a)) -> preserves P (bind m f).
Proof.
  intros Hm Hf d Hd. unfold bind. specialize (Hm d Hd).
  destruct (m d) as [[e|a] d']; simpl in *; [done | by apply Hf].
Qed.

Lemma preserves_try_except (body : M unit) :
  preserves P body -> preserves P (try_except body).
Proof. intros Hb d Hd. by apply Hb. Qed.

Lemma preserves_if_longer v i (body : pyval -> M unit) :
  (forall x, preserves P (body x)) -> preserves P (if_longer v i body).
Proof.
  intros Hb. unfold if_longer. apply preserves_bind; [apply preserves_lift |].
  intros n. destruct (i <? n)%nat; [| apply preserves_pass].
  apply preserves_bind; [apply preserves_lift | done].
Qed.

Lemma preserves_if_result_empty (body : M unit) :
  preserves P body -> preserves P (if_result_empty body).
Proof.
  intros Hb d Hd. unfold if_result_empty. case_bool_decide; [by apply Hb | done].
Qed.
End Preserves.

Lemma preserves_setdefault key v :
  structured_field key v -> preserves field_set (setdefault key v).
Proof.
  intros Hkv d Hd. unfold setdefault. simpl.
  destruct (d !! key); [done |]. by apply map_Forall_insert_2.
Qed.

Lemma preserves_store key v :
  structured_field key v -> preserves field_set (store key v).
Proof. intros Hkv d Hd. by apply map_Forall_insert_2. Qed.

Ltac solve_structured_field :=
  split; [in_list | intros [?|?]; first [discriminate | assumption]].

Ltac preserve_step :=
  lazymatch goal with
  | |- preserves _ pass => apply preserves_pass
  | |- preserves _ (try_except _) => apply preserves_try_except
  | |- preserves _ (if_result_empty _) => apply preserves_if_result_empty
  | |- preserves _ (if_longer _ _ _) => apply preserves_if_longer; intros ?
  | |- preserves _ (bind _ _) => apply preserves_bind; [| intros ?]
  | |- preserves _ (lift _) => apply preserves_lift
  | |- preserves _ (setdefault _ _) => apply preserves_setdefault; solve_structured_field
  | |- preserves _ (store _ _) => apply preserves_store; solve_structured_field
  | |- preserves _ (match _ with _ => _ end) => case_match
  end.

Ltac preserve := repeat preserve_step.

Lemma legacy_blob_field_set blob : preserves field_set (_extract_legacy_blob blob).
Proof. unfold _extract_legacy_blob, legacy_blob_body. preserve. Qed.

Lemma legacy_string_field_set json_loads blob_str :
  preserves field_set (_try_parse_legacy_string json_loads blob_str).
Proof.
  unfold _try_parse_legacy_string, legacy_string_body. preserve.
  apply legacy_blob_field_set.
Qed.

Lemma app_init_state_field_set json_loads html :
  preserves field_set (_extract_from_app_init_state json_loads html).
Proof.
  unfold _extract_from_app_init_state, app_init_state_body, new_structure,
    legacy_structure.
  preserve; first [apply legacy_blob_field_set | apply legacy_string_field_set].
Qed.

Lemma init_data_field_set json_loads html :
  field_set (init_data_of json_loads html).
Proof. apply app_init_state_field_set. apply map_Forall_empty. Qed.

(** C4. The structured-state parser returns for every markup and every
    behaviour of the decoder, and so do its two helpers on every blob: no
    exception leaves them. With no anchor in the markup, with a delimited
    text that opens with neither bracket, or when the decoder raises, the
    field set returned is empty; in every case it holds only fields of
    the structured source (a shape or type mismatch leaves fields
    out). *)
Theorem structured_parser_never_raises :
  forall (json_loads : string -> exn + pyval) (html : string),
    (forall d, (_extract_from_app_init_state json_loads html d).1 = inr tt)
    /\ (forall blob d, (_extract_legacy_blob blob d).1 = inr tt)
    /\ (forall blob_str d,
          (_try_parse_legacy_string json_loads blob_str d).1 = inr tt)
    /\ (search APP_STATE_RE html = None -> init_data_of json_loads html = ∅)
    /\ (forall m, search APP_STATE_RE html = Some m ->
          opens_json (strip (group1 m)) = false ->
          init_data_of json_loads html = ∅)
    /\ (forall m e, search APP_STATE_RE html = Some m ->
          json_loads (strip (group1 m)) = inl e ->
          init_data_of json_loads html = ∅)
    /\ (forall key v, init_data_of json_loads html !! key = Some v ->
          key ∈ STRUCTURED_FIELDS).
Proof.
  intros json_loads html.
  refine (conj _ (conj _ (conj _ (conj _ (conj _ (conj _ _)))))); try done.
  - intros Hs. unfold init_data_of, _extract_from_app_init_state,
      app_init_state_body, try_except. by rewrite Hs.
  - intros m Hs Ho. unfold init_data_of, _extract_from_app_init_state,
      app_init_state_body, try_except. by rewrite Hs, Ho.
  - intros m e Hs He. unfold init_data_of, _extract_from_app_init_state,
      app_init_state_body, try_except. rewrite Hs.
    destruct (opens_json _); simpl; [| done].
    unfold bind, lift. by rewrite He.
  - intros key v Hkv.
    by destruct (init_data_field_set json_loads html key v Hkv).
Qed.

(** Markup whose delimited text is cut short: the decoder raises, the
    parser returns the empty field set. *)
Lemma truncated_state_gives_no_fields :
  let html := ";window.APP_INITIALIZATION_STATE=[[1,2,;window.APP_FLAGS" in
  init_data_of Json.loads html = ∅.
Proof.
  intros html.
  destruct (structured_parser_never_raises Json.loads html)
    as (_ & _ & _ & _ & _ & Hraise & _).
  apply (Hraise (Match 0 56 "[[1,2,") JSONDecodeError); vm_compute; reflexivity.
Defined.

(** A legacy blob whose address list holds a number: the join raises a
    [TypeError] inside [_extract_legacy_blob]; the name and the place id
    written before it stay, the address and the categories are missing,
    and the function returns. *)
Example legacy_blob_partial :
  let blob := VList [VNone; VNone; VList [VStr "12 Rue"; VInt 75001]; VNone; VNone;
                     VNone; VNone; VNone; VNone; VNone; VStr "0x1:0x2";
                     VStr "Cafe Roma"; VNone; VList [VStr "Cafe"]] in
  legacy_blob_body blob ∅
  = (inl TypeError, <["place_id" := VStr "0x1:0x2"]> {[ "name" := VStr "Cafe Roma" ]})
  /\ _extract_legacy_blob blob ∅
     = (inr tt, <["place_id" := VStr "0x1:0x2"]> {[ "name" := VStr "Cafe Roma" ]}).
Proof. vm_compute. split; reflexivity. Qed.

(** A decoded state of an unknown shape (here an object): no field, no
    exception. *)
Example unknown_shape_gives_no_fields :
  _extract_from_app_init_state Json.loads
    (lit ";window.APP_INITIALIZATION_STATE={`a`: [1, [2]]};window.APP_FLAGS") ∅
  = (inr tt, ∅).
Proof. vm_compute. reflexivity. Qed.

(** ** Zero values *)

(** A page whose only extracted field is a rating of zero: the rating
    extractor returns [0.0], every other extractor returns nothing, and
    [extract_place_data] returns no record. The zero is replaced in the
    fallback step ([if not rating]), before the build step. *)
Lemma zero_rating_page_yields_no_record :
  let html := lit "<div class=`fontDisplayMedium`>0</div>" in
  rendered_of html = Rendered None (Some (FDec 0 0)) None None None None None
  /\ init_data_of Json.loads html = ∅
  /\ extract_place_data Json.loads (Some html) = None.
Proof. vm_compute. repeat split. Qed.

(** The same for a review count of zero. *)
Example zero_reviews_page_yields_no_record :
  let html := lit "<div class=`fontDisplayMedium`>.</div><span>0 reviews</span>" in
  rendered_of html = Rendered None None (Some 0) None None None None
  /\ init_data_of Json.loads html = ∅
  /\ extract_place_data Json.loads (Some html) = None.
Proof. vm_compute. repeat split. Qed.

(** C10, amended. The build step keeps rating and reviews_count
    whenever the resolved value is not [None], a zero included, and drops
    the string and list fields (name, address, website, phone,
    categories) whenever their value is falsy. But a rendered rating or
    review count of zero is falsy, and the fallback step has replaced it
    by the structured value before the build: the record holds that
    structured value, or no value when the structured source has none.
    The structured parser records no falsy rating or count, so the
    record that [extract_place_data] returns never holds a zero for
    either. *)
Theorem zero_numbers_kept_by_build_replaced_by_fallback :
  forall (f : fields) (r : rendered) (init_data : gmap string pyval),
    (is_none (f_rating f) = false -> build f !! "rating" = Some (f_rating f))
    /\ (is_none (f_reviews_count f) = false ->
        build f !! "reviews_count" = Some (f_reviews_count f))
    /\ (truthy (f_name f) = false -> build f !! "name" = None)
    /\ (truthy (f_address f) = false -> build f !! "address" = None)
    /\ (truthy (f_website f) = false -> build f !! "website" = None)
    /\ (truthy (f_phone f) = false -> build f !! "phone" = None)
    /\ (truthy (f_categories f) = false -> build f !! "categories" = None)
    /\ (forall x, r_rating r = Some x -> float_truthy x = false ->
        build (resolve r init_data) !! "rating" = init_data !! "rating" ≫= λ v,
          if is_none v then None else Some v)
    /\ (r_reviews_count r = Some 0 ->
        build (resolve r init_data) !! "reviews_count"
        = init_data !! "reviews_count" ≫= λ v, if is_none v then None else Some v)
    /\ (forall json_loads html d v,
          extract_place_data json_loads (Some html) = Some d ->
          d !! "rating" = Some v \/ d !! "reviews_count" = Some v ->
          truthy v = true).
Proof.
  intros f r init_data.
  refine (conj _ (conj _ (conj _ (conj _ (conj _ (conj _ (conj _ (conj _ (conj _ _))))))))).
  - intros H. by rewrite build_rating, H.
  - intros H. by rewrite build_reviews_count, H.
  - intros H. by rewrite build_name, H.
  - intros H. by rewrite build_address, H.
  - intros H. by rewrite build_website, H.
  - intros H. by rewrite build_phone, H.
  - intros H. by rewrite build_categories, H.
  - intros x Hx Hz. rewrite build_rating. simpl. rewrite Hx. unfold or_init. simpl.
    rewrite Hz. unfold get, kept.
    destruct (init_data !! "rating") as [v|]; simpl; [by destruct (is_none v) | done].
  - intros Hx. rewrite build_reviews_count. simpl. rewrite Hx. unfold or_init. simpl.
    unfold get, kept.
    destruct (init_data !! "reviews_count") as [v|]; simpl;
      [by destruct (is_none v) | done].
  - intros json_loads html d v [-> _]%extract_place_data_Some Hv.
    pose proof (init_data_field_set json_loads html) as Hinit.
    rewrite build_rating, build_reviews_count in Hv. simpl in Hv.
    destruct Hv as [Hv|Hv]; unfold kept in Hv; case_match eqn:Hn; try done;
      injection Hv as <-; unfold or_init in *; case_match eqn:Ht; try done;
      unfold get in *;
      match goal with
      | _ : context [?m !! ?k] |- _ => destruct (m !! k) as [w|] eqn:Hw; [| done]
      end;
      apply Hinit in Hw as [_ Hw]; apply Hw; auto.
Qed.

(** A zero that reaches the build step is kept, and makes a record; an
    empty name is dropped. A rendered zero does not reach the build step:
    with no structured rating the record has no rating. *)
Lemma zero_numbers_example :
  let zero := VFloat (FDec 0 0) in
  let f := Fields (VStr EmptyString) VNone VNone VNone zero VNone VNone VNone VNone in
  let r := Rendered None (Some (FDec 0 0)) None None None None None in
  build f !! "rating" = Some zero
  /\ build f !! "name" = None
  /\ build (resolve r ∅) !! "rating" = None.
Proof.
  intros zero f r.
  destruct (zero_numbers_kept_by_build_replaced_by_fallback f r ∅)
    as (Hrating & _ & Hname & _ & _ & _ & _ & Hzero & _ & _).
  refine (conj _ (conj _ _)).
  - apply Hrating. reflexivity.
  - apply Hname. reflexivity.
  - apply (Hzero (FDec 0 0)); reflexivity.
Defined.

(** ** Link collection *)

Section CollectorProperties.

Variable set_to_list : gset string -> list string.
Hypothesis set_to_list_perm : forall s, set_to_list s ≡ₚ elements s.

Lemma size_truncated (links : gset string) (m : Z) :
  0 <= m -> m <= Z.of_nat (size links) ->
  Z.of_nat (size (list_to_set (C := gset string) (slice_to m (set_to_list links)))) = m.
Proof.
  intros H0 Hm. unfold slice_to. rewrite (proj2 (Z.leb_le 0 m) H0).
  assert (NoDup (set_to_list links)) as Hnd.
  { rewrite set_to_list_perm. apply NoDup_elements. }
  assert (length (set_to_list links) = size links) as Hlen.
  { by rewrite set_to_list_perm. }
  rewrite size_list_to_set.
  - rewrite length_take_le by lia. lia.
  - eapply sublist_NoDup; [done | apply sublist_take].
Qed.

Lemma truncated_subseteq (links : gset string) (m : Z) :
  list_to_set (C := gset string) (slice_to m (set_to_list links)) ⊆ links.
Proof.
  intros x. rewrite elem_of_list_to_set. unfold slice_to.
  intros Hx. apply elem_of_elements. rewrite <- set_to_list_perm.
  destruct (0 <=? m); eapply elem_of_sublist; eauto using sublist_take.
Qed.

(** What a pass of the loop leaves, under a bound [m]: a [break] on the
    bound leaves exactly [m] links; any other outcome leaves fewer. *)
Lemma scroll_step_bounded (m : Z) st obs :
  0 <= m ->
  match scroll_step set_to_list (Some m) st obs with
  | Break ReachedMax links => Z.of_nat (size links) = m
  | Break _ links => Z.of_nat (size links) < m
  | Continue st' => Z.of_nat (size (place_links st')) < m
  end.
Proof.
  intros H0. unfold scroll_step. cbv beta iota zeta.
  destruct (Z.of_nat (size _) >=? m) eqn:Hcap.
  - apply size_truncated; [done | lia].
  - assert (Z.of_nat (size (place_links st ∪ list_to_set (current_links_list obs))) < m)
      by lia.
    destruct (new_height obs =? last_height st); [| done].
    destruct (0 <? end_marker_count obs)%nat; [done |].
    destruct (negb _); [| done].
    destruct (MAX_SCROLL_ATTEMPTS_WITHOUT_NEW_LINKS <=? _)%nat; assumption.
Qed.

(** The loop is left by one of its [break]s. *)
Lemma scroll_loop_exit max_places st passes why links :
  scroll_loop set_to_list max_places st passes = Collected why links -> is_Some why.
Proof.
  revert st. induction passes as [|[e|obs] passes IH]; intros st; simpl; try done.
  destruct (scroll_step _ _ _ _); [apply IH | by intros [= <- _]].
Qed.

Lemma scroll_loop_bounded (m : Z) st passes why links :
  0 <= m ->
  scroll_loop set_to_list (Some m) st passes = Collected why links ->
  is_Some why
  /\ Z.of_nat (size links) <= m
  /\ (why = Some ReachedMax -> Z.of_nat (size links) = m).
Proof.
  intros H0. revert st. induction passes as [|[e|obs] passes IH]; intros st; simpl;
    [done | done |].
  pose proof (scroll_step_bounded m st obs H0) as Hstep.
  destruct (scroll_step set_to_list (Some m) st obs) as [st'|why' links'].
  - apply IH.
  - intros [= <- <-]. split; [by eexists |].
    destruct why'; (split; [lia | intros [=]; lia]).
Qed.

(** Where the bound holds. Under a supplied bound [m] of at least one,
    the set of links on which the per-item loop starts has at most [m]
    elements. When, in a pass of the scroll loop, the running count
    reaches the bound (any bound from zero up), the set is truncated to
    exactly [m] links, and every exit of the scroll loop leaves at most
    [m]. When the scroll loop is not entered, the set is empty or holds
    the one URL of the page. *)
Theorem collected_links_bounded :
  forall (m : Z) wait feed_count height passes why links,
    collect_links set_to_list (Some m) wait feed_count height passes
    = Collected why links ->
    (1 <= m -> Z.of_nat (size links) <= m)
    /\ (0 <= m -> is_Some why -> Z.of_nat (size links) <= m)
    /\ (0 <= m -> why = Some ReachedMax -> Z.of_nat (size links) = m)
    /\ (why = None ->
        (wait = FeedVisible /\ links = ∅)
        \/ (exists page_url, wait = FeedTimeout page_url /\ links = {[ page_url ]})).
Proof.
  intros m wait feed_count height passes why links. unfold collect_links.
  assert (forall start_links : gset string,
    (size start_links <= 1)%nat ->
    (if (0 <? feed_count)%nat
     then scroll_loop set_to_list (Some m) (ScrollState start_links height 0) passes
     else Collected None start_links) = Collected why links ->
    (1 <= m -> Z.of_nat (size links) <= m)
    /\ (0 <= m -> is_Some why -> Z.of_nat (size links) <= m)
    /\ (0 <= m -> why = Some ReachedMax -> Z.of_nat (size links) = m)
    /\ (why = None -> links = start_links)) as Hstart.
  { intros start_links Hsize. destruct (0 <? feed_count)%nat.
    - intros Hloop. split_and!.
      + intros Hm. by apply scroll_loop_bounded in Hloop as (_ & ? & _); [| lia].
      + intros Hm _. by apply scroll_loop_bounded in Hloop as (_ & ? & _).
      + intros Hm Hwhy. apply scroll_loop_bounded in Hloop as (_ & _ & ?); auto.
      + intros ->. by apply scroll_loop_exit, is_Some_None in Hloop.
    - intros [= <- <-]. split_and!;
        [lia | by intros _ ?%is_Some_None | done | done]. }
  destruct wait as [|page_url|]; [| | done].
  - intros H. apply Hstart in H as (? & ? & ? & Hnone); [| rewrite size_empty; lia].
    split_and!; auto.
  - destruct (contains "/maps/place/" page_url); [| done].
    intros H. apply Hstart in H as (? & ? & ? & Hnone); [| rewrite size_singleton; lia].
    split_and!; eauto.
Qed.

End CollectorProperties.

(** A bound of two, three links found in the first pass: the cap fires
    and exactly two links are kept. *)
Lemma collected_links_bounded_example :
  let pass := ScrollObs ["https://maps/place/a"; "https://maps/place/b";
                         "https://maps/place/c"] 900 0 in
  let kept := list_to_set (slice_to 2 (elements (list_to_set (current_links_list pass)
                                                 : gset string))) in
  collect_links elements (Some 2) FeedVisible 1 900 [inr pass]
  = Collected (Some ReachedMax) kept
  /\ Z.of_nat (size kept) = 2.
Proof.
  intros pass kept.
  assert (collect_links elements (Some 2) FeedVisible 1 900 [inr pass]
          = Collected (Some ReachedMax) kept) as Hrun by (vm_compute; reflexivity).
  split; [exact Hrun |].
  destruct (collected_links_bounded elements (fun s => reflexivity _) 2
              FeedVisible 1%nat 900 [inr pass] (Some ReachedMax) kept Hrun)
    as (_ & _ & Hexact & _).
  apply Hexact; [lia | reflexivity].
Defined.

(** C5, at a failing input. The bound is 0 and the search lands on a
    single place: the wait for the feed times out on a place page and no
    feed is present. The scroll loop, the only place where the bound is
    tested, is not entered, and the per-item loop starts on one link,
    the URL of the page: more than the bound. On the same page under the
    same bound, when a feed is present, the first pass of the loop
    leaves on the bound and truncates the set to no link at all. *)
Theorem single_result_path_ignores_bound :
  let page_url := "https://www.google.com/maps/place/Cafe+Roma/" in
  (forall set_to_list,
     collect_links set_to_list (Some 0) (FeedTimeout page_url) 0 0 []
     = Collected None {[ page_url ]})
  /\ ~ Z.of_nat (size ({[ page_url ]} : gset string)) <= 0
  /\ (forall set_to_list height obs passes,
        collect_links set_to_list (Some 0) (FeedTimeout page_url) 1 height
          (inr obs :: passes)
        = Collected (Some ReachedMax) ∅).
Proof.
  intros page_url. split_and!.
  - reflexivity.
  - rewrite size_singleton. lia.
  - intros set_to_list height obs passes.
    unfold collect_links. cbn [contains startswith Ascii.eqb Bool.eqb andb orb
      Nat.ltb Nat.leb scroll_loop].
    change (contains "/maps/place/" page_url) with true. cbv iota.
    unfold scroll_step. cbv beta iota zeta. cbn [place_links default].
    destruct (Z.geb_spec (Z.of_nat (size ({[page_url]}
                ∪ list_to_set (current_links_list obs) : gset string))) 0)
      as [_|Hneg]; [reflexivity | lia].
Qed.

(** *** The exits of the scroll loop without a bound *)

Section Unbounded.

Variable set_to_list : gset string -> list string.

Lemma no_new_links_union (links current : gset string) :
  negb (negb (bool_decide (current ∖ links = ∅))) = true ->
  current ⊆ links /\ links ∪ current = links.
Proof.
  intros H. rewrite negb_involutive in H. apply bool_decide_eq_true in H.
  assert (current ⊆ links) as Hsub.
  { intros x Hx. destruct (decide (x ∈ links)); [done |].
    assert (x ∈ current ∖ links) as Hd by set_solver. rewrite H in Hd. set_solver. }
  split; [done |]. apply subseteq_union_1_L in Hsub. by rewrite (comm_L (∪)).
Qed.

(** Without a bound, the loop is never left on the link count. *)
Lemma unbounded_never_capped st passes why links :
  scroll_loop set_to_list None st passes = Collected (Some why) links ->
  why <> ReachedMax.
Proof.
  revert st. induction passes as [|[e|obs] passes IH]; intros st; simpl; try done.
  destruct (scroll_step set_to_list None st obs) as [st'|why' links'] eqn:Hstep.
  - apply IH.
  - intros [= <- <-]. intros ->. unfold scroll_step in Hstep.
    cbv beta iota zeta in Hstep.
    destruct (new_height obs =? last_height st); [| done].
    destruct (0 <? end_marker_count obs)%nat; [done |].
    destruct (negb _); [| done].
    by destruct (MAX_SCROLL_ATTEMPTS_WITHOUT_NEW_LINKS <=? _)%nat.
Qed.

Lemma unbounded_end_marker st passes links :
  scroll_loop set_to_list None st passes = Collected (Some ReachedEnd) links ->
  left_at_end_marker set_to_list None st passes links.
Proof.
  revert st. induction passes as [|[e|obs] passes IH]; intros st; simpl; try done.
  destruct (scroll_step set_to_list None st obs) as [st1|why' links'] eqn:Hstep.
  - intros (before & o & after & st' & -> & Hb & Hh & Hm & Hl)%IH.
    exists (inr obs :: before), o, after, st'. simpl. by rewrite Hstep.
  - intros [= -> ->]. exists [], obs, passes, st. simpl.
    unfold scroll_step in Hstep. cbv beta iota zeta in Hstep.
    destruct (new_height obs =? last_height st) eqn:Hh; [| done].
    destruct (0 <? end_marker_count obs)%nat eqn:Hm.
    + injection Hstep as <-. apply Z.eqb_eq in Hh. apply Nat.ltb_lt in Hm. done.
    + destruct (negb _); [| done].
      by destruct (MAX_SCROLL_ATTEMPTS_WITHOUT_NEW_LINKS <=? _)%nat.
Qed.

Lemma unbounded_stall st passes links :
  (scroll_attempts_no_new st < MAX_SCROLL_ATTEMPTS_WITHOUT_NEW_LINKS)%nat ->
  scroll_loop set_to_list None st passes = Collected (Some NoNewLinks) links ->
  exists before last after st',
    passes = before ++ last ++ after
    /\ scroll_loop set_to_list None st before = Scrolling st'
    /\ (length last + scroll_attempts_no_new st'
        = MAX_SCROLL_ATTEMPTS_WITHOUT_NEW_LINKS)%nat
    /\ Forall (stalled (place_links st') (last_height st')) last
    /\ links = place_links st'
    /\ (before = [] \/ scroll_attempts_no_new st' = 0%nat).
Proof.
  revert st. induction passes as [|[e|obs] passes IH]; intros st Hk; simpl; try done.
  unfold scroll_step. cbv beta iota zeta.
  destruct (new_height obs =? last_height st) eqn:Hh.
  - destruct (0 <? end_marker_count obs)%nat eqn:Hm; [done |].
    apply Z.eqb_eq in Hh. apply Nat.ltb_ge in Hm.
    destruct (negb _) eqn:Hnew.
    + (* no new links *)
      destruct (no_new_links_union _ _ Hnew) as [Hsub Hunion]. rewrite Hunion.
      assert (stalled (place_links st) (last_height st) (inr obs)) as Hstalled.
      { exists obs. split_and!; [done | done | done | lia]. }
      destruct (MAX_SCROLL_ATTEMPTS_WITHOUT_NEW_LINKS <=? _)%nat eqn:Hmax.
      * intros [= <-]. apply Nat.leb_le in Hmax.
        exists [], [inr obs], passes, st. simpl.
        split_and!; [done | done | lia | by constructor | done | by left].
      * apply Nat.leb_gt in Hmax.
        intros (before & last & after & st' & -> & Hb & Hlen & Hall & -> & Hor)%IH;
          [| simpl; lia].
        destruct before as [|pass before].
        -- simpl in Hb. injection Hb as <-. simpl in *.
           exists [], (inr obs :: last), after, st. simpl.
           split_and!; [done | done | lia | by constructor | done | by left].
        -- destruct Hor as [[=]|Hzero].
           exists (inr obs :: pass :: before), last, after, st'.
           split_and!; try done; [| by right].
           simpl. unfold scroll_step at 1. cbv beta iota zeta.
           rewrite (proj2 (Z.eqb_eq _ _) Hh).
           rewrite (proj2 (Nat.ltb_ge _ _) Hm), Hnew.
           rewrite (proj2 (Nat.leb_gt _ _) Hmax), Hunion. exact Hb.
    + (* new links: the count of stalled passes starts again *)
      intros (before & last & after & st' & -> & Hb & Hlen & Hall & -> & Hor)%IH;
        [| simpl; unfold MAX_SCROLL_ATTEMPTS_WITHOUT_NEW_LINKS; lia].
      exists (inr obs :: before), last, after, st'.
      split_and!; try done.
      * simpl. unfold scroll_step at 1. cbv beta iota zeta.
        rewrite (proj2 (Z.eqb_eq _ _) Hh), (proj2 (Nat.ltb_ge _ _) Hm), Hnew.
        exact Hb.
      * right. destruct Hor as [-> | ?]; [| done].
        simpl in Hb. by injection Hb as <-.
  - (* the height changed: the count of stalled passes starts again *)
    intros (before & last & after & st' & -> & Hb & Hlen & Hall & -> & Hor)%IH;
      [| simpl; unfold MAX_SCROLL_ATTEMPTS_WITHOUT_NEW_LINKS; lia].
    exists (inr obs :: before), last, after, st'.
    split_and!; try done.
    + simpl. unfold scroll_step at 1. cbv beta iota zeta. rewrite Hh. exact Hb.
    + right. destruct Hor as [-> | ?]; [| done].
      simpl in Hb. by injection Hb as <-.
Qed.

End Unbounded.

(** C6, amended. When no bound is supplied ([max_places] is [None]), the
    scroll loop is never left on the link count: it is left only when a
    pass sees an unchanged scroll height and the end-of-list marker, or
    when 15 passes in a row have seen an unchanged height, no new link
    and no marker. *)
Theorem unbounded_scroll_exits :
  forall set_to_list links height passes why collected,
    scroll_loop set_to_list None (ScrollState links height 0) passes
    = Collected (Some why) collected ->
    (why = ReachedEnd
     /\ left_at_end_marker set_to_list None (ScrollState links height 0)
          passes collected)
    \/ (why = NoNewLinks
        /\ left_after_stall set_to_list None (ScrollState links height 0)
             passes collected MAX_SCROLL_ATTEMPTS_WITHOUT_NEW_LINKS).
Proof.
  intros set_to_list links height passes why collected Hrun.
  destruct why.
  - by apply unbounded_never_capped in Hrun.
  - left. split; [done |]. by apply unbounded_end_marker.
  - right. split; [done |].
    apply unbounded_stall in Hrun
      as (before & last & after & st' & -> & Hb & Hlen & Hall & -> & Hor);
      [| simpl; unfold MAX_SCROLL_ATTEMPTS_WITHOUT_NEW_LINKS; lia].
    exists before, last, after, st'. split_and!; try done.
    destruct Hor as [-> | Hzero]; [| lia].
    simpl in Hb. injection Hb as <-. simpl in Hlen. lia.
Qed.

(** Fifteen passes over a feed that no longer moves: the loop is left
    for lack of progress, with the two links it had. *)
Lemma unbounded_scroll_stall_example :
  let links : gset string := {[ "https://maps/place/a"; "https://maps/place/b" ]} in
  let pass : raised + scroll_obs := inr (ScrollObs ["https://maps/place/a"] 900 0) in
  left_after_stall elements None (ScrollState links 900 0) (replicate 15 pass)
    links MAX_SCROLL_ATTEMPTS_WITHOUT_NEW_LINKS.
Proof.
  intros links pass.
  assert (scroll_loop elements None (ScrollState links 900 0) (replicate 15 pass)
          = Collected (Some NoNewLinks) links) as Hrun by (vm_compute; reflexivity).
  destruct (unbounded_scroll_exits elements links 900 (replicate 15 pass)
              NoNewLinks links Hrun) as [[Hend _] | [_ Hstall]].
  - discriminate Hend.
  - exact Hstall.
Defined.

(** With a bound of zero the loop is left on the link count in its first
    pass, whatever that pass sees (here a grown feed, new links and no
    end-of-list marker), and the per-item loop starts on no link. *)
Lemma zero_bound_stops_at_first_pass :
  let pass := ScrollObs ["https://maps/place/a"; "https://maps/place/b"] 1800 0 in
  collect_links elements (Some 0) FeedVisible 1 900 [inr pass]
  = Collected (Some ReachedMax) ∅.
Proof. vm_compute. reflexivity. Qed.

(** ** The string-framed legacy blob *)

Lemma strip_prefix_framed body :
  contains ")'" body = false ->
  strip_prefix (")]}'" +:+ body) = lstrip_by (chr newline) body.
Proof.
  intros Hfree. unfold strip_prefix. simpl.
  change (EmptyString +:+ body) with body. by rewrite Hfree.
Qed.

(** Where the framing is transparent: when [)'] does not occur in what
    follows the prefix, the string form gives what the direct form
    gives. *)
Lemma legacy_string_transparent json_loads body parsed blob d :
  contains ")'" body = false ->
  let inner_str := strip (lstrip_by (chr newline) body) in
  opens_json inner_str = true ->
  json_loads inner_str = inr (VList parsed) ->
  parsed !! 6%nat = Some (VList blob) ->
  _try_parse_legacy_string json_loads (")]}'" +:+ body) d
  = _extract_legacy_blob (VList blob) d.
Proof.
  intros Hfree inner_str Hopen Hloads Hblob.
  unfold _try_parse_legacy_string, legacy_string_body.
  rewrite strip_prefix_framed by done. fold inner_str. rewrite Hopen.
  unfold try_except at 1, bind, lift. rewrite Hloads. simpl. by rewrite Hblob.
Qed.

(** C8, at a failing input. The body after the prefix is valid JSON and
    holds, at position 6, a blob with a place id and a name; the name
    contains [)']. The direct form of the blob gives both fields. The
    string form gives none, whatever the decoder: the prefix is stripped
    by splitting at the first [)'], which stands inside the name, and
    what is left does not open with a bracket. *)
Theorem legacy_string_split_inside_body :
  let blob :=
    VList [VNone; VNone; VNone; VNone; VNone; VNone; VNone; VNone; VNone; VNone;
           VStr "0x1:0x2"; VStr "Chez (l'Ami)'s"] in
  let body :=
    lit ("[null,null,null,null,null,null,[null,null,null,null,null,null,"
         +:+ "null,null,null,null,`0x1:0x2`,`Chez (l'Ami)'s`]]") in
  let blob_str := lit ")]}'~" +:+ body in
  Json.loads body = inr (VList [VNone; VNone; VNone; VNone; VNone; VNone; blob])
  /\ _extract_legacy_blob blob ∅
     = (inr tt, <["place_id" := VStr "0x1:0x2"]> {[ "name" := VStr "Chez (l'Ami)'s" ]})
  /\ strip (strip_prefix blob_str) = lit "s`]]"
  /\ forall json_loads, _try_parse_legacy_string json_loads blob_str ∅ = (inr tt, ∅).
Proof.
  intros blob body blob_str. split_and!.
  - vm_compute. reflexivity.
  - vm_compute. reflexivity.
  - vm_compute. reflexivity.
  - intros json_loads. unfold _try_parse_legacy_string, legacy_string_body.
    replace (strip (strip_prefix blob_str)) with (lit "s`]]")
      by (vm_compute; reflexivity).
    reflexivity.
Qed.

(** The same blob without the closing parenthesis in the name: the two
    forms agree. *)
Example legacy_string_agrees :
  let blob :=
    VList [VNone; VNone; VNone; VNone; VNone; VNone; VNone; VNone; VNone; VNone;
           VStr "0x1:0x2"; VStr "Chez l'Ami"] in
  let body :=
    lit ("[null,null,null,null,null,null,[null,null,null,null,null,null,"
         +:+ "null,null,null,null,`0x1:0x2`,`Chez l'Ami`]]") in
  _try_parse_legacy_string Json.loads (lit ")]}'~" +:+ body) ∅
  = _extract_legacy_blob blob ∅.
Proof. vm_compute. reflexivity. Qed.

(** The failing blob inside a page: the structured parser finds
    nothing, and with no rendered field the page yields no record. *)
Example legacy_string_in_page :
  let html :=
    lit (";window.APP_INITIALIZATION_STATE=[0,0,0,[0,0,0,0,0,0,`)]}'\n"
         +:+ "[null,null,null,null,null,null,[null,null,null,null,null,null,"
         +:+ "null,null,null,null,\`0x1:0x2\`,\`Chez (l'Ami)'s\`]]`]]"
         +:+ ";window.APP_FLAGS") in
  init_data_of Json.loads html = ∅
  /\ extract_place_data Json.loads (Some html) = None.
Proof. vm_compute. split; reflexivity. Qed.

(** ** The review count *)

(** *** Matching lemmas *)

Lemma append_cons c s t : String c s +:+ t = String c (s +:+ t).
Proof. reflexivity. Qed.

Lemma append_nil s : EmptyString +:+ s = s.
Proof. reflexivity. Qed.

Lemma append_assoc s t u : (s +:+ t) +:+ u = s +:+ t +:+ u.
Proof. induction s as [|c s IH]; [done |]. by rewrite !append_cons, IH. Qed.

Lemma length_append s t :
  String.length (s +:+ t) = (String.length s + String.length t)%nat.
Proof. induction s as [|c s IH]; [done |]. rewrite append_cons. simpl. by rewrite IH. Qed.

Lemma startswith_append p t : startswith p (p +:+ t) = true.
Proof.
  induction p as [|c p IH]; [done |]. rewrite append_cons. simpl.
  by rewrite Ascii.eqb_refl, IH.
Qed.

Lemma drop_append p t : drop (String.length p) (p +:+ t) = t.
Proof. induction p as [|c p IH]; [done |]. by rewrite append_cons. Qed.

Lemma take_append p t : take (String.length p) (p +:+ t) = p.
Proof.
  induction p as [|c p IH]; [by destruct t |]. rewrite append_cons. simpl.
  by rewrite IH.
Qed.

(** Whether [m] opens a text is decided by the first [length m]
    characters. *)
Lemma startswith_append_long m x t :
  (String.length m <= String.length x)%nat ->
  startswith m (x +:+ t) = startswith m x.
Proof.
  revert x. induction m as [|a m IH]; intros [|b x] Hlen; try done.
  - simpl in Hlen. lia.
  - rewrite append_cons. simpl in *. rewrite IH by lia. done.
Qed.

Section Matching.
Context {A : Type}.
Implicit Types (k : cursor -> option A) (p q : ascii -> bool).

(** A greedy quantifier in front of a run of its class, when what
    follows the run is outside the class and the rest of the pattern
    matches there: the whole run is taken. *)
Lemma exec_rep_greedy_run p lo k run :
  forall n at_pos g s a,
    all_chars p run = true ->
    first_char p s = false ->
    (lo <= n + String.length run)%nat ->
    k (Cursor (at_pos + String.length run) s g) = Some a ->
    exec_rep true p lo None k n at_pos g (run +:+ s) = Some a.
Proof.
  induction run as [|c run IH]; intros n at_pos g s a Hall Hnext Hlo Hk.
  - rewrite append_nil. simpl in *. rewrite Nat.add_0_r in *.
    destruct s as [|c s]; simpl in *.
    + rewrite (proj2 (Nat.leb_le _ _)) by lia. done.
    + rewrite Hnext. simpl. rewrite (proj2 (Nat.leb_le _ _)) by lia. done.
  - rewrite append_cons. simpl in *. apply andb_true_iff in Hall as [Hc Hall].
    rewrite Hc. simpl.
    rewrite (IH (S n) (S at_pos) g s a); try done; [lia |].
    by replace (S at_pos + String.length run)%nat
      with (at_pos + S (String.length run))%nat by lia.
Qed.

(** A lazy quantifier in front of characters at none of which the rest
    of the pattern matches: they are all consumed. *)
Lemma exec_rep_lazy_skip p lo k skip :
  forall n at_pos g s,
    (forall a c b, skip = a +:+ String c b ->
       k (Cursor (at_pos + String.length a) (String c b +:+ s) g) = None) ->
    all_chars p skip = true ->
    exec_rep false p lo None k n at_pos g (skip +:+ s)
    = exec_rep false p lo None k (n + String.length skip)
        (at_pos + String.length skip) g s.
Proof.
  induction skip as [|c skip IH]; intros n at_pos g s Hk Hp.
  - rewrite append_nil. simpl. by rewrite !Nat.add_0_r.
  - rewrite append_cons. simpl in *.
    apply andb_true_iff in Hp as [Hpc Hp].
    pose proof (Hk EmptyString c skip eq_refl) as Hhere.
    simpl in Hhere. rewrite Nat.add_0_r, append_cons in Hhere.
    rewrite Hhere, Hpc. simpl.
    rewrite IH; [| | done].
    + replace (S n + String.length skip)%nat
        with (n + S (String.length skip))%nat by lia.
      replace (S at_pos + String.length skip)%nat
        with (at_pos + S (String.length skip))%nat by lia.
      by destruct (lo <=? n)%nat.
    + intros a c' b ->.
      specialize (Hk (String c a) c' b eq_refl). simpl in Hk.
      by replace (S at_pos + String.length a)%nat
        with (at_pos + S (String.length a))%nat by lia.
Qed.

(** A lazy quantifier stops as soon as the rest of the pattern matches. *)
Lemma exec_rep_lazy_stop p lo hi k n at_pos g s a :
  (lo <= n)%nat ->
  k (Cursor at_pos s g) = Some a ->
  exec_rep false p lo hi k n at_pos g s = Some a.
Proof.
  intros Hlo Hk. destruct s; simpl; rewrite (proj2 (Nat.leb_le _ _) Hlo), Hk; done.
Qed.

End Matching.

Section MatchingSteps.
Context {A : Type}.
Implicit Types (k : cursor -> option A) (p q : ascii -> bool).

Lemma exec_lit_append l k i t g :
  exec (Lit l) k (Cursor i (l +:+ t) g) = k (Cursor (i + String.length l) t g).
Proof. simpl. by rewrite startswith_append, drop_append. Qed.

Lemma exec_plus_run p k run i s g a :
  run <> EmptyString ->
  all_chars p run = true ->
  first_char p s = false ->
  k (Cursor (i + String.length run) s g) = Some a ->
  exec (plus p) k (Cursor i (run +:+ s) g) = Some a.
Proof.
  intros Hne Hall Hnext Hk. simpl. apply exec_rep_greedy_run; try done.
  destruct run; [done | simpl; lia].
Qed.

Lemma exec_lazy_star_skip p k skip i s g a :
  (forall x c y, skip = x +:+ String c y ->
     k (Cursor (i + String.length x) (String c y +:+ s) g) = None) ->
  all_chars p skip = true ->
  k (Cursor (i + String.length skip) s g) = Some a ->
  exec (lazy_star p) k (Cursor i (skip +:+ s) g) = Some a.
Proof.
  intros Hk Hp Ha. simpl. rewrite exec_rep_lazy_skip by done.
  apply exec_rep_lazy_stop; [lia | done].
Qed.

(** A class needed at least once, in front of a character outside it. *)
Lemma exec_plus_fail p k i s g :
  first_char p s = false -> exec (plus p) k (Cursor i s g) = None.
Proof. intros H. destruct s as [|c s]; simpl in *; [done | by rewrite H]. Qed.

End MatchingSteps.

(** A quantified class at the end of a pattern, with no minimum: the
    match succeeds and the capture is the one made before. *)
Lemma exec_rep_last greedy p hi subject i s :
  forall n at_pos g,
    exists e,
      exec_rep greedy p 0 hi
        (fun c => Some (Match i (pos c) (slice subject (grp c)))) n at_pos g s
      = Some (Match i e (slice subject g)).
Proof.
  induction s as [|c s IH]; intros n at_pos g; simpl.
  - destruct greedy; by eexists.
  - destruct (p c && below n hi); [| destruct greedy; by eexists].
    destruct (IH (S n) (S at_pos) g) as [e He]. rewrite He.
    destruct greedy; by eexists.
Qed.

(** A pattern that opens with the literal [m] has no match at the
    positions of [pre] when [m] does not occur there: the search moves
    on to the end of [pre]. *)
Lemma search_from_skip m r subject pre :
  forall i t,
    absent_before m pre = true ->
    search_from (Lit m >> r) subject i (pre +:+ m +:+ t)
    = search_from (Lit m >> r) subject (i + String.length pre) (m +:+ t).
Proof.
  induction pre as [|c pre IH]; intros i t Habs.
  - rewrite append_nil. simpl. by rewrite Nat.add_0_r.
  - simpl in Habs. apply andb_true_iff in Habs as [Hhere Habs].
    apply negb_true_iff in Hhere.
    rewrite append_cons. cbn [search_from].
    assert (match_at (Lit m >> r) subject i (String c (pre +:+ m +:+ t)) = None) as ->.
    { unfold match_at. cbn [exec rest].
      rewrite <- append_cons, <- append_assoc, startswith_append_long, Hhere; [done |].
      rewrite length_append. lia. }
    rewrite IH by done. f_equal. simpl. lia.
Qed.

Lemma search_from_hit r subject i s m :
  match_at r subject i s = Some m -> search_from r subject i s = Some m.
Proof. intros H. destruct s; simpl; by rewrite H. Qed.

Lemma is_space_not_count c :
  is_space c = true -> either is_digit (chr ",") c = false.
Proof. destruct c as [[] [] [] [] [] [] [] []]; by vm_compute. Qed.

(** What follows the lazy part of the pattern, a [>] and a count, has no
    match inside such a text, nor across its end when a [>] follows. *)
Lemma no_count_yet_fails {A} r (k : cursor -> option A) between :
  no_count_yet between = true ->
  forall x c y t i g,
    between = x +:+ String c y ->
    exec (Lit ">" >> Grp (plus count_char) >> r) k
      (Cursor i (String c y +:+ ">" +:+ t) g) = None.
Proof.
  intros Hb x. revert between Hb.
  induction x as [|d x IH]; intros between Hb c y t i g ->.
  - rewrite append_nil in Hb. simpl in Hb.
    apply andb_true_iff in Hb as [Hc _]. apply negb_true_iff in Hc.
    rewrite append_cons. cbn [exec rest startswith].
    rewrite Ascii.eqb_sym.
    destruct (Ascii.eqb c ">"); [| done]. simpl in Hc.
    cbn [andb drop String.length pos grp].
    change (exec (Grp (plus count_char) >> r) k ?c)
      with (exec (plus count_char)
              (fun c' => exec r k (Cursor (pos c') (rest c') (Some (pos c, pos c')))) c).
    apply exec_plus_fail. by destruct y.
  - rewrite append_cons in Hb. simpl in Hb. apply andb_true_iff in Hb as [_ Hb].
    by eapply IH.
Qed.

(** The review count, in general, when the separators are commas. The
    markup holds the rating display for the first time after [pre]; a
    rating, of digits and periods; a [<]; then the first [>] that is
    followed at once by a count, of digits and commas; white space; and
    the word review. The extractor returns the count with its commas
    removed. *)
Lemma reviews_count_with_commas pre rating between count spaces more :
  absent_before RATING_MARKER pre = true ->
  rating <> EmptyString -> all_chars (either is_digit (chr ".")) rating = true ->
  no_count_yet between = true ->
  count <> EmptyString -> all_chars count_char count = true ->
  spaces <> EmptyString -> all_chars is_space spaces = true ->
  _extract_reviews_count
    (pre +:+ RATING_MARKER +:+ rating +:+ "<" +:+ between +:+ ">" +:+ count
     +:+ spaces +:+ "review" +:+ more)
  = py_int (remove_char "." (remove_char "," count)).
Proof.
  intros Hpre Hr Hrating Hbetween Hc Hcount Hs Hspaces.
  unfold _extract_reviews_count, search.
  set (tail := spaces +:+ "review" +:+ more).
  set (subject := pre +:+ _).
  assert (exists e, search_from REVIEWS_RE subject 0 subject
                    = Some (Match (String.length pre) e count)) as [e ->]; [| done].
  unfold subject at 2. unfold REVIEWS_RE.
  rewrite (search_from_skip RATING_MARKER) by done. simpl Nat.add.
  set (i := String.length pre).
  set (start := (i + String.length RATING_MARKER + String.length rating + 1
                 + String.length between + 1)%nat).
  assert (slice subject (Some (start, (start + String.length count)%nat)) = count)
    as Hslice.
  { unfold slice, subject.
    replace (start + String.length count - start)%nat with (String.length count) by lia.
    replace (pre +:+ RATING_MARKER +:+ rating +:+ "<" +:+ between +:+ ">"
             +:+ count +:+ tail)
      with ((pre +:+ RATING_MARKER +:+ rating +:+ "<" +:+ between +:+ ">")
            +:+ count +:+ tail) by (by rewrite !append_assoc).
    replace start
      with (String.length (pre +:+ RATING_MARKER +:+ rating +:+ "<" +:+ between +:+ ">")).
    - by rewrite drop_append, take_append.
    - rewrite !length_append. subst start i. simpl. lia. }
  destruct (exec_rep_last true (chr "s") (Some 1%nat) subject i more 0
              (start + String.length count + String.length spaces + 6)%nat
              (Some (start, (start + String.length count)%nat))) as [e He].
  exists e. rewrite <- Hslice at 2.
  apply search_from_hit. unfold match_at.
  assert (forall (B : Type) (r1 r2 : regex) (k : cursor -> option B) c,
             exec (r1 >> r2) k c = exec r1 (exec r2 k) c) as exec_cat by done.
  assert (forall (B : Type) (r : regex) (k : cursor -> option B) c,
             exec (Grp r) k c
             = exec r (fun c' => k (Cursor (pos c') (rest c') (Some (pos c, pos c')))) c)
    as exec_grp by done.
  rewrite exec_cat, exec_lit_append.
  rewrite exec_cat. erewrite exec_plus_run; [reflexivity | done | done | done |].
  rewrite exec_cat, (exec_lit_append "<").
  rewrite exec_cat.
  erewrite (exec_lazy_star_skip any);
    [reflexivity | intros x c y; by apply no_count_yet_fails | | ].
  { clear. induction between; [done | simpl; auto]. }
  rewrite exec_cat, (exec_lit_append ">").
  rewrite exec_cat, exec_grp.
  erewrite exec_plus_run; [reflexivity | done | done | |].
  { unfold tail. destruct spaces as [|c spaces]; [done |].
    simpl in Hspaces. apply andb_true_iff in Hspaces as [Hc' _].
    rewrite append_cons. simpl. by apply is_space_not_count. }
  cbn [pos rest grp].
  rewrite exec_cat. unfold tail.
  erewrite exec_plus_run; [reflexivity | done | done | done |].
  rewrite exec_cat, (exec_lit_append "review").
  exact He.
Qed.

(** The general statement at the markup of the failing input, with
    commas. *)
Lemma reviews_count_with_commas_example :
  _extract_reviews_count
    (lit "<div class=`" +:+ RATING_MARKER +:+ "4.5" +:+ "<" +:+ "/div><span" +:+ ">"
     +:+ "1,234" +:+ " " +:+ "review" +:+ "s</span>")
  = Some 1234.
Proof.
  apply (reviews_count_with_commas (lit "<div class=`") "4.5" "/div><span" "1,234"
           " " "s</span>");
    first [discriminate | vm_compute; reflexivity].
Defined.

(** Absent when the pattern is not found. *)
Lemma reviews_count_absent_without_match html :
  search REVIEWS_RE html = None -> _extract_reviews_count html = None.
Proof. intros H. unfold _extract_reviews_count. by rewrite H. Qed.

(** C7, at a failing input. With commas the count is read in full. With
    periods the pattern finds no match and the extractor returns
    nothing: the captured class holds digits and commas only, so the
    removal of periods that follows the match has nothing to remove. On
    the text [1.234] the conversion of the source gives 1234. *)
Theorem reviews_count_period_separator :
  let with_commas :=
    lit "<div class=`fontDisplayMedium`>4.5</div><span>1,234 reviews</span>" in
  let with_periods :=
    lit "<div class=`fontDisplayMedium`>4.5</div><span>1.234 reviews</span>" in
  _extract_reviews_count with_commas = Some 1234
  /\ search REVIEWS_RE with_periods = None
  /\ _extract_reviews_count with_periods = None
  /\ py_int (remove_char "." (remove_char "," "1.234")) = Some 1234.
Proof. vm_compute. repeat split. Qed.

(** The count of the specification's scenario, and a count with several
    commas. *)
Example reviews_count_plain :
  _extract_reviews_count
    (lit "<div class=`fontDisplayMedium`>4.5</div><span aria-label=`128 reviews`>128 reviews</span>")
  = Some 128.
Proof. vm_compute. reflexivity. Qed.

Example reviews_count_millions :
  _extract_reviews_count
    (lit "<div class=`fontDisplayMedium`>4.5</div><span>(</span><span>1,234,567 reviews</span>")
  = Some 1234567.
Proof. vm_compute. reflexivity. Qed.

(** No rating display, no count. *)
Example reviews_count_absent :
  _extract_reviews_count "<span>1,234 reviews</span>" = None.
Proof. vm_compute. reflexivity. Qed.

(** * Further properties *)

(** ** What the rendered-markup extractors return *)

Lemma lstrip_by_first p s : first_char p (lstrip_by p s) = false.
Proof.
  induction s as [|c s IH]; [done |]. simpl.
  destruct (p c) eqn:Hc; [done | simpl; by rewrite Hc].
Qed.

Lemma lstrip_by_id p s : first_char p s = false -> lstrip_by p s = s.
Proof. destruct s as [|c s]; [done |]. simpl. by intros ->. Qed.

Lemma rstrip_by_first p s :
  first_char p s = false -> first_char p (rstrip_by p s) = false.
Proof.
  destruct s as [|c s]; [done |]. simpl. intros Hc.
  by rewrite Hc, andb_false_r.
Qed.

Lemma rstrip_by_idemp p s : rstrip_by p (rstrip_by p s) = rstrip_by p s.
Proof.
  induction s as [|c s IH]; [done |]. simpl.
  destruct (is_empty (rstrip_by p s) && p c) eqn:Hc; [done |].
  simpl. by rewrite IH, Hc.
Qed.

Lemma strip_first s : first_char is_space (strip s) = false.
Proof. apply rstrip_by_first, lstrip_by_first. Qed.

(** [s.strip().strip() == s.strip()] *)
Lemma strip_idemp s : strip (strip s) = strip s.
Proof.
  unfold strip at 1. rewrite lstrip_by_id by apply strip_first.
  unfold strip. apply rstrip_by_idemp.
Qed.

Lemma all_chars_append p s t :
  all_chars p (s +:+ t) = all_chars p s && all_chars p t.
Proof.
  induction s as [|c s IH]; [done |]. rewrite append_cons. simpl.
  by rewrite IH, andb_assoc.
Qed.

Lemma digits_value_nonneg s : forall acc m,
  0 <= acc -> digits_value acc s = Some m -> 0 <= m.
Proof.
  induction s as [|c s IH]; intros acc m Hacc; simpl.
  - by intros [= <-].
  - destruct (is_digit c) eqn:Hc; [| done]. apply IH.
    unfold digit_value, is_digit, in_range in *.
    apply andb_true_iff in Hc as [Hlo _]. apply N.leb_le in Hlo. lia.
Qed.

(** X1: a name, when one is returned, is not empty and carries no white
    space at either end; an address, when one is returned, carries none
    either (it may be empty). *)
Theorem name_and_address_are_stripped :
  forall html,
    (forall name, _extract_name html = Some name ->
       name <> EmptyString /\ strip name = name)
    /\ (forall addr, _extract_address html = Some addr -> strip addr = addr).
Proof.
  intros html. split.
  - intros name. unfold _extract_name.
    destruct (search NAME_RE html) as [m|]; [| done]. cbv beta iota zeta.
    destruct (is_empty (strip _)) eqn:He; [done |]. intros [= <-].
    split; [| apply strip_idemp]. intros Hn. by rewrite Hn in He.
  - intros addr. unfold _extract_address.
    destruct (search ADDRESS_LABEL_RE html) as [m|].
    { intros [= <-]. apply strip_idemp. }
    destruct (search ADDRESS_ITEM_RE html) as [m|]; [| done].
    cbv beta iota zeta. intros [= <-]. case_match; apply strip_idemp.
Qed.

(** A heading with inner markup and padding, and a padded address
    label. *)
Lemma name_and_address_example :
  let html :=
    lit ("<h1 class=`x`> <b>Cafe</b> Roma </h1>"
         +:+ "<button aria-label=`Address:  12 Rue de Paris `></button>") in
  (_extract_name html = Some "Cafe Roma" /\ strip "Cafe Roma" = "Cafe Roma")
  /\ (_extract_address html = Some "12 Rue de Paris"
      /\ strip "12 Rue de Paris" = "12 Rue de Paris").
Proof.
  intros html.
  assert (_extract_name html = Some "Cafe Roma") as Hname
    by (vm_compute; reflexivity).
  assert (_extract_address html = Some "12 Rue de Paris") as Haddress
    by (vm_compute; reflexivity).
  destruct (name_and_address_are_stripped html) as [Hn Ha].
  exact (conj (conj Hname (proj2 (Hn _ Hname))) (conj Haddress (Ha _ Haddress))).
Defined.

(** The value of a run of digits, by its length. *)
Lemma digits_value_range s : forall acc m,
  0 <= acc -> digits_value acc s = Some m ->
  acc * 10 ^ Z.of_nat (String.length s) <= m
  < (acc + 1) * 10 ^ Z.of_nat (String.length s).
Proof.
  induction s as [|c s IH]; intros acc m Hacc; simpl String.length.
  - simpl. intros [= <-]. lia.
  - cbn [digits_value]. destruct (is_digit c) eqn:Hc; [| done].
    assert (0 <= digit_value c <= 9) as Hd.
    { unfold digit_value, is_digit, in_range in *.
      apply andb_true_iff in Hc as [Hlo Hhi].
      apply N.leb_le in Hlo. apply N.leb_le in Hhi. lia. }
    intros Hm. apply IH in Hm; [| lia].
    rewrite Nat2Z.inj_succ, Z.pow_succ_r by lia.
    assert (0 < 10 ^ Z.of_nat (String.length s)) by (apply Z.pow_pos_nonneg; lia).
    nia.
Qed.

(** X2: a rating, when one is returned, is not negative: it is a
    decimal of the digits read, below the least magnitude that a double
    cannot hold, or the positive infinity that [float] makes of a larger
    one.  A review count, when one is returned, is not negative and has
    at most 4300 digits, the most that [int] converts. *)
Theorem rendered_numbers_not_negative :
  forall html,
    (forall x, _extract_rating html = Some x ->
       x = FInf false
       \/ exists m e,
            x = FDec m e /\ 0 <= m /\ e <= 0
            /\ m < DOUBLE_OVERFLOW * 10 ^ (- e))
    /\ (forall n, _extract_reviews_count html = Some n ->
          0 <= n < 10 ^ Z.of_nat INT_MAX_STR_DIGITS).
Proof.
  intros html. split.
  - intros x. unfold _extract_rating.
    destruct (search RATING_RE html) as [m|]; [| done].
    unfold py_float. destruct (split_period _) as [whole f].
    destruct (is_empty _); [done |].
    destruct (digits_value 0 _) as [v|] eqn:Hv; [| done]. simpl.
    apply digits_value_nonneg in Hv; [| done].
    set (e := - Z.of_nat (String.length (default EmptyString f))).
    assert (e <= 0) as He by (subst e; lia).
    unfold to_double, overflows. intros [= <-].
    rewrite (Z.abs_eq v) by done.
    destruct (Z.leb_spec 0 e) as [Hzero|Hneg].
    + assert (e = 0) as -> by lia. change (10 ^ 0) with 1. rewrite Z.mul_1_r.
      destruct (Z.leb_spec DOUBLE_OVERFLOW v) as [Hover|Hfits].
      * left. by rewrite (proj2 (Z.ltb_ge v 0)).
      * right. exists v, 0. change (10 ^ (- 0)) with 1. rewrite Z.mul_1_r. done.
    + destruct (Z.leb_spec (DOUBLE_OVERFLOW * 10 ^ (- e)) v) as [Hover|Hfits].
      * left. by rewrite (proj2 (Z.ltb_ge v 0)).
      * right. by exists v, e.
  - intros n. unfold _extract_reviews_count.
    destruct (search REVIEWS_RE html) as [m|]; [| done].
    unfold py_int. destruct (is_empty _); [done |].
    destruct (INT_MAX_STR_DIGITS <? _)%nat eqn:Hlen; [done |].
    apply Nat.ltb_ge in Hlen. intros Hn. apply digits_value_range in Hn; [| done].
    split; [lia |]. eapply Z.lt_le_trans; [apply Hn |].
    rewrite Z.add_0_l, Z.mul_1_l. apply Z.pow_le_mono_r; lia.
Qed.

(** A rating of 4.5 and 1,234 reviews. *)
Lemma rendered_numbers_example :
  let html :=
    lit "<div class=`fontDisplayMedium`>4.5</div><span>1,234 reviews</span>" in
  (_extract_rating html = Some (FDec 45 (-1))
   /\ (FDec 45 (-1) = FInf false
       \/ exists m e,
            FDec 45 (-1) = FDec m e /\ 0 <= m /\ e <= 0
            /\ m < DOUBLE_OVERFLOW * 10 ^ (- e)))
  /\ (_extract_reviews_count html = Some 1234
      /\ 0 <= 1234 < 10 ^ Z.of_nat INT_MAX_STR_DIGITS).
Proof.
  intros html.
  assert (_extract_rating html = Some (FDec 45 (-1))) as Hrating
    by (vm_compute; reflexivity).
  assert (_extract_reviews_count html = Some 1234) as Hcount
    by (vm_compute; reflexivity).
  destruct (rendered_numbers_not_negative html) as [Hr Hc].
  exact (conj (conj Hrating (Hr _ Hrating)) (conj Hcount (Hc _ Hcount))).
Defined.

(** A rating display of 400 nines: [float] gives the infinity. *)
Example rating_overflow_example :
  _extract_rating
    (lit "<div class=`fontDisplayMedium`>" +:+ repeat_char "9" 400 +:+ "</div>")
  = Some (FInf false).
Proof. vm_compute. reflexivity. Qed.

Lemma with_scheme_has_scheme website :
  startswith "http://" (with_scheme website) || startswith "https://" (with_scheme website)
  = true.
Proof.
  unfold with_scheme.
  destruct (startswith "http://" website || startswith "https://" website) eqn:H;
    [done |].
  apply orb_true_iff. right. apply (startswith_append "https://").
Qed.

(** X3: a website, when one is returned, is an absolute URL: it opens
    with [http://] or [https://], whichever of the two patterns found
    it. *)
Theorem website_has_scheme :
  forall html website,
    _extract_website html = Some website ->
    startswith "http://" website || startswith "https://" website = true.
Proof.
  intros html website. unfold _extract_website.
  cbv beta iota zeta.
  destruct (search WEBSITE_LABEL_RE html) as [m|];
    [destruct (is_empty (strip _)) |];
    try (destruct (search AUTHORITY_RE html) as [m'|]; [| done]);
    intros [= <-]; apply with_scheme_has_scheme.
Qed.

(** A website label without a scheme. *)
Lemma website_has_scheme_example :
  let html := lit "<a data-item-id=`authority` aria-label=`Website: example.com `></a>" in
  _extract_website html = Some "https://example.com"
  /\ startswith "http://" "https://example.com"
     || startswith "https://" "https://example.com" = true.
Proof.
  intros html.
  assert (_extract_website html = Some "https://example.com") as Hwebsite
    by (vm_compute; reflexivity).
  exact (conj Hwebsite (website_has_scheme html _ Hwebsite)).
Defined.

(** *** What a match consumed *)

Lemma drop_drop a : forall b s, drop (a + b) s = drop b (drop a s).
Proof.
  induction a as [|a IH]; intros b s; [done |].
  destruct s as [|c s]; simpl; [by destruct b | apply IH].
Qed.

Lemma drop_succ i subject c s :
  drop i subject = String c s -> drop (S i) subject = s.
Proof.
  intros H. replace (S i) with (i + 1)%nat by lia. by rewrite drop_drop, H.
Qed.

(** A search that succeeds is a match at some position of the subject. *)
Lemma search_from_sound r subject : forall s i m,
  drop i subject = s ->
  search_from r subject i s = Some m ->
  exists j, match_at r subject j (drop j subject) = Some m.
Proof.
  induction s as [|c s IH]; intros i m Hs; simpl.
  - destruct (match_at r subject i EmptyString) eqn:Hm; [| done].
    intros [= <-]. exists i. by rewrite Hs.
  - destruct (match_at r subject i (String c s)) eqn:Hm.
    + intros [= <-]. exists i. by rewrite Hs.
    + apply IH. by eapply drop_succ.
Qed.

(** Whatever a quantified class hands to the rest of the pattern, it has
    consumed only characters of the class, and at least [lo] of them. *)
Lemma exec_rep_sound {A} greedy p lo hi (k : cursor -> option A) : forall s n at_pos g a,
  exec_rep greedy p lo hi k n at_pos g s = Some a ->
  exists w s',
    s = w +:+ s' /\ all_chars p w = true
    /\ (lo <= n + String.length w)%nat
    /\ k (Cursor (at_pos + String.length w) s' g) = Some a.
Proof.
  assert (Hstop : forall s n at_pos g a,
    (if (lo <=? n)%nat then k (Cursor at_pos s g) else None) = Some a ->
    exists w s',
      s = w +:+ s' /\ all_chars p w = true
      /\ (lo <= n + String.length w)%nat
      /\ k (Cursor (at_pos + String.length w) s' g) = Some a).
  { intros s n at_pos g a H. destruct (lo <=? n)%nat eqn:Hlo; [| done].
    apply Nat.leb_le in Hlo. exists EmptyString, s.
    split_and!; [done | done | simpl; lia |].
    simpl. by rewrite Nat.add_0_r. }
  induction s as [|c s IH]; intros n at_pos g a.
  - simpl. intros H. apply Hstop.
    destruct greedy; [exact H |]. revert H.
    destruct (lo <=? n)%nat; [| done]. by destruct (k _).
  - assert (Hmore :
      (if p c && below n hi
       then exec_rep greedy p lo hi k (S n) (S at_pos) g s else None) = Some a ->
      exists w s',
        String c s = w +:+ s' /\ all_chars p w = true
        /\ (lo <= n + String.length w)%nat
        /\ k (Cursor (at_pos + String.length w) s' g) = Some a).
    { destruct (p c && below n hi) eqn:Hc; [| done].
      apply andb_true_iff in Hc as [Hc _]. intros H.
      apply IH in H as (w & s' & -> & Hw & Hlo & Hk).
      exists (String c w), s'. simpl. rewrite Hc, Hw.
      split_and!; [done | done | lia |].
      by replace (at_pos + S (String.length w))%nat
        with (S at_pos + String.length w)%nat by lia. }
    simpl. destruct greedy.
    + destruct (if p c && below n hi then _ else _) as [a'|] eqn:Hm.
      * intros [= <-]. by apply Hmore.
      * apply Hstop.
    + destruct (if (lo <=? n)%nat then _ else _) as [a'|] eqn:Hs.
      * intros [= <-]. by apply Hstop.
      * apply Hmore.
Qed.

(** A pattern made of a literal, a captured quantified class and a
    literal: the capture of a search is made of characters of the class,
    at least [lo] of them. *)
Lemma search_group_of_class l greedy p lo hi q subject m :
  search (Lit l >> Grp (Rep greedy p lo hi) >> Lit q) subject = Some m ->
  all_chars p (group1 m) = true /\ (lo <= String.length (group1 m))%nat.
Proof.
  intros H. apply (search_from_sound _ _ _ 0%nat) in H as [j H]; [| done].
  unfold match_at in H. cbn [exec pos rest grp] in H.
  destruct (startswith l (drop j subject)) eqn:Hl; [| done].
  apply exec_rep_sound in H as (w & s' & Hw & Hall & Hlo & H).
  cbn [exec pos rest grp] in H.
  destruct (startswith q s'); [| done]. injection H as <-.
  cbn [group1 slice].
  rewrite (Nat.add_comm (j + String.length l)), Nat.add_sub.
  by rewrite drop_drop, Hw, take_append.
Qed.

(** Deleting every non-digit leaves digits. *)
Lemma delete_non_digits subject : forall fuel i s,
  (String.length s < fuel)%nat ->
  all_chars is_digit (delete_from fuel NON_DIGIT_RE subject i s) = true.
Proof.
  induction fuel as [|fuel IH]; intros i s Hlen; [lia |].
  destruct s as [|c s]; [done |].
  cbn [delete_from match_at NON_DIGIT_RE exec rest pos grp].
  simpl in Hlen. destruct (is_digit c) eqn:Hc; cbn [negb m_end].
  - cbn [all_chars]. rewrite Hc. apply IH. lia.
  - replace (S i - i)%nat with 1%nat by lia. cbn [drop]. apply IH. lia.
Qed.

Lemma extract_phone_digits html phone :
  _extract_phone html = Some phone ->
  phone <> EmptyString /\ all_chars is_digit phone = true.
Proof.
  unfold _extract_phone.
  destruct (search PHONE_ITEM_RE html) as [m|] eqn:Hitem.
  - intros [= <-]. apply search_group_of_class in Hitem as [Hall Hlen].
    split; [| done]. intros Hp. rewrite Hp in Hlen. simpl in Hlen. lia.
  - destruct (search PHONE_LABEL_RE html) as [m|]; [| done].
    cbv beta iota zeta.
    destruct (is_empty (delete_all NON_DIGIT_RE (group1 m))) eqn:He; [done |].
    intros [= <-]. split.
    + intros Hp. by rewrite Hp in He.
    + apply delete_non_digits. lia.
Qed.

(** X4: a phone number, when one is returned, is a non-empty run of
    decimal digits, whether it was read from the item identifier or from
    the label; and the phone of a record is such a run: the structured
    source is never asked for one. *)
Theorem phone_is_digits :
  forall json_loads html,
    (forall phone,
       _extract_phone html = Some phone ->
       phone <> EmptyString /\ all_chars is_digit phone = true)
    /\ (forall record v,
          extract_place_data json_loads (Some html) = Some record ->
          record !! "phone" = Some v ->
          exists phone,
            v = VStr phone /\ _extract_phone html = Some phone
            /\ phone <> EmptyString /\ all_chars is_digit phone = true).
Proof.
  intros json_loads html. split; [apply extract_phone_digits |].
  intros record v [-> _]%extract_place_data_Some. rewrite build_phone.
  cbn [resolve f_phone rendered_of r_phone].
  destruct (_extract_phone html) as [phone|] eqn:Hphone; [| done].
  cbn [of_option]. unfold kept. case_match; [| done]. intros [= <-].
  exists phone. split_and!; [done | done | by eapply extract_phone_digits ..].
Qed.

(** A phone label in international writing; the item identifier, which
    holds a plus sign, is not matched. *)
Lemma phone_is_digits_example :
  let html :=
    lit ("<button data-item-id=`phone:tel:+33123456789` "
         +:+ "aria-label=`Phone: +33 1 23 45 67 89 `></button>") in
  _extract_phone html = Some "33123456789"
  /\ "33123456789" <> EmptyString
  /\ all_chars is_digit "33123456789" = true.
Proof.
  intros html.
  assert (_extract_phone html = Some "33123456789") as Hphone
    by (vm_compute; reflexivity).
  exact (conj Hphone (proj1 (phone_is_digits Json.loads html) _ Hphone)).
Defined.

(** X5: the categories, when returned, are one text: stripped, of two
    characters or more, opening with a letter or a digit, not a number
    in the style of a rating or a count, and without the word review in
    any case. *)
Theorem categories_single_text :
  forall html categories,
    _extract_categories html = Some categories ->
    exists text,
      categories = [text]
      /\ strip text = text
      /\ (2 <= String.length text)%nat
      /\ first_char is_alpha text || first_char is_digit_char text = true
      /\ matches NUMERIC_RE text = false
      /\ contains "review" (lower text) = false.
Proof.
  intros html categories. unfold _extract_categories.
  destruct (search HEADING_RE html) as [h1_match|]; [| done].
  cbv beta iota zeta.
  destruct (find is_category _) as [text|] eqn:Hfind; [| done].
  intros [= <-]. exists text. apply find_some in Hfind as [Hin Hcat].
  apply in_map_iff in Hin as (span_text & <- & _).
  unfold is_category in Hcat.
  repeat (case_match; [done |]).
  apply andb_true_iff in Hcat as [Hlen Hfirst]. apply Nat.ltb_lt in Hlen.
  split_and!; try done. apply strip_idemp.
Qed.

(** A rating and a count in parentheses come first and are passed
    over. *)
Lemma categories_single_text_example :
  let html :=
    "<h1>Cafe</h1><span>4.5</span><span>(128)</span><span> Coffee shop </span>" in
  _extract_categories html = Some ["Coffee shop"]
  /\ exists text,
       ["Coffee shop"] = [text]
       /\ strip text = text
       /\ (2 <= String.length text)%nat
       /\ first_char is_alpha text || first_char is_digit_char text = true
       /\ matches NUMERIC_RE text = false
       /\ contains "review" (lower text) = false.
Proof.
  intros html.
  assert (_extract_categories html = Some ["Coffee shop"]) as Hcategories
    by (vm_compute; reflexivity).
  exact (conj Hcategories (categories_single_text html _ Hcategories)).
Defined.

(** ** When there is no rating *)

Lemma digits_value_None s : forall acc,
  digits_value acc s = None <-> all_chars is_digit s = false.
Proof.
  induction s as [|c s IH]; intros acc; simpl; [done |].
  destruct (is_digit c); [apply IH | done].
Qed.

Lemma period_not_digit c : Ascii.eqb c "." = true -> is_digit c = false.
Proof. by intros ->%Ascii.eqb_eq. Qed.

(** What [split_period] makes of a text of digits and periods. *)
Lemma split_period_spec s :
  all_chars (either is_digit (chr ".")) s = true ->
  let '(whole, f) := split_period s in
  all_chars is_digit whole = true
  /\ some_char is_digit s = some_char is_digit (whole +:+ default EmptyString f)
  /\ match f with
     | None => occurrences "." s = 0%nat
     | Some r =>
         occurrences "." s = S (occurrences "." r)
         /\ all_chars (either is_digit (chr ".")) r = true
     end.
Proof.
  induction s as [|c s IH]; [done |]. simpl. intros [Hc Hs]%andb_true_iff.
  destruct (Ascii.eqb c ".") eqn:Hp; [by rewrite (period_not_digit c Hp) |].
  specialize (IH Hs). destruct (split_period s) as [whole f].
  destruct IH as (Hw & Hsome & Hf). rewrite append_cons. simpl.
  unfold either, chr in Hc. rewrite Hp, orb_false_r in Hc. rewrite Hc, Hw, Hsome.
  split_and!; [done | done |]. by destruct f.
Qed.

Lemma all_periods_or_digits s :
  all_chars (either is_digit (chr ".")) s = true ->
  (all_chars is_digit s = true <-> occurrences "." s = 0%nat)
  /\ (some_char is_digit s = false -> s = EmptyString \/ (1 <= occurrences "." s)%nat).
Proof.
  induction s as [|c s IH]; [by split; [| left] |]. simpl.
  intros [Hc Hs]%andb_true_iff. destruct (IH Hs) as [IH1 IH2].
  unfold either, chr in Hc.
  destruct (Ascii.eqb c ".") eqn:Hp.
  - rewrite (period_not_digit c Hp). simpl. split; [done |]. intros _. right. lia.
  - rewrite orb_false_r in Hc. rewrite Hc. simpl. split; [done | done].
Qed.

Lemma py_float_None s :
  all_chars (either is_digit (chr ".")) s = true ->
  py_float s = None
  <-> (2 <= occurrences "." s)%nat \/ some_char is_digit s = false.
Proof.
  intros Hs. unfold py_float. pose proof (split_period_spec s Hs) as Hspec.
  destruct (split_period s) as [whole f]. destruct Hspec as (Hw & Hsome & Hf).
  set (frac := default EmptyString f) in *.
  assert (all_chars (either is_digit (chr ".")) frac = true
          /\ (occurrences "." s <= 1 + occurrences "." frac)%nat
          /\ ((1 <= occurrences "." frac)%nat -> (2 <= occurrences "." s)%nat))
    as (Hfrac & Hle & Hge).
  { subst frac. destruct f as [r|]; simpl; [destruct Hf as [-> ?] | rewrite Hf];
      split_and!; try done; lia. }
  destruct (all_periods_or_digits frac Hfrac) as [Hdigits Hnone].
  assert (some_char is_digit (whole +:+ frac) = false -> whole = EmptyString)
    as Hwhole.
  { destruct whole as [|c whole]; [done |]. rewrite append_cons. simpl in *.
    apply andb_true_iff in Hw as [-> _]. done. }
  destruct (is_empty (whole +:+ frac)) eqn:Hempty.
  - split; [intros _ | done]. right. rewrite Hsome.
    by destruct (whole +:+ frac).
  - assert (digits_value 0 (whole +:+ frac) = None
            <-> (1 <= occurrences "." frac)%nat) as Hfail.
    { rewrite digits_value_None, all_chars_append, Hw. simpl.
      destruct (all_chars is_digit frac) eqn:Hall.
      - split; [done |]. intros H. apply proj1 in Hdigits.
        specialize (Hdigits eq_refl). lia.
      - split; [intros _ | done].
        destruct (occurrences "." frac) eqn:Hocc; [| lia].
        apply proj2 in Hdigits. by specialize (Hdigits eq_refl). }
    destruct (digits_value 0 (whole +:+ frac)) as [v|] eqn:Hv; simpl.
    + split; [done |]. intros [Htwo | Hno].
      * assert (1 <= occurrences "." frac)%nat as H1 by lia.
        by apply Hfail in H1.
      * rewrite Hsome in Hno. pose proof (Hwhole Hno) as ->.
        rewrite append_nil in Hno, Hempty.
        destruct (Hnone Hno) as [-> | H1]; [done |]. by apply Hfail in H1.
    + split; [intros _ | done]. left. apply Hge. by apply Hfail.
Qed.

(** X6: when there is no rating.  [_extract_rating] returns nothing
    exactly when the rating display is not found, or when the text
    captured there, which is made of digits and periods, holds two
    periods or more, or no digit: the cases in which the conversion to a
    float fails. *)
Theorem rating_absent_exactly :
  forall html,
    _extract_rating html = None
    <-> search RATING_RE html = None
        \/ exists m,
             search RATING_RE html = Some m
             /\ ((2 <= occurrences "." (group1 m))%nat
                 \/ some_char is_digit (group1 m) = false).
Proof.
  intros html. unfold _extract_rating.
  destruct (search RATING_RE html) as [m|] eqn:Hm; [| split; [by left | done]].
  pose proof (search_group_of_class _ _ _ _ _ _ _ _ Hm) as [Hclass _].
  rewrite (py_float_None _ Hclass). split.
  - intros H. right. by exists m.
  - by intros [[=] | (m' & [= <-] & H)].
Qed.

(** A rating display with two periods, and one with a single period and
    no digit: no rating. *)
Lemma rating_absent_example :
  _extract_rating (lit "<div class=`fontDisplayMedium`>4.5.1</div>") = None
  /\ _extract_rating (lit "<div class=`fontDisplayMedium`>.</div>") = None.
Proof.
  split.
  - apply (proj2 (rating_absent_exactly _)). right.
    exists (Match 5 42 "4.5.1"). split; [vm_compute; reflexivity |].
    left. simpl. lia.
  - apply (proj2 (rating_absent_exactly _)). right.
    exists (Match 5 38 "."). split; [vm_compute; reflexivity |].
    by right.
Defined.

(** ** What the structured-state parser reads *)

Lemma if_longer_list l i (body : pyval -> M unit) d :
  if_longer (VList l) i body d
  = match l !! i with Some x => body x d | None => (inr tt, d) end.
Proof.
  unfold if_longer, bind, lift, py_len, py_getitem, pass, ret.
  destruct (Nat.ltb_spec i (length l)) as [Hlt|Hge].
  - destruct (lookup_lt_is_Some_2 l i Hlt) as [x ->]. done.
  - by rewrite (lookup_ge_None_2 l i Hge).
Qed.

Lemma lookup_recorded_ne key key' o d :
  key <> key' -> recorded key' o d !! key = d !! key.
Proof.
  intros Hne. destruct o as [v|]; [| done]. unfold recorded, setdefault. simpl.
  destruct (d !! key'); [done |]. by rewrite lookup_insert_ne.
Qed.

Lemma lookup_recorded_eq key o d :
  d !! key = None -> recorded key o d !! key = o.
Proof.
  intros Hd. destruct o as [v|]; [| done]. unfold recorded, setdefault. simpl.
  rewrite Hd. apply lookup_insert_eq.
Qed.

(** The statements of the blob that cannot raise, each by what it leaves
    in [result]. *)
Lemma blob_truthy_item l i key d :
  if_longer (VList l) i (fun x => if truthy x then setdefault key x else pass) d
  = (inr tt, recorded key (truthy_at l i) d).
Proof.
  rewrite if_longer_list. unfold truthy_at.
  destruct (l !! i) as [x|]; [| done]. simpl. by destruct (truthy x).
Qed.

Lemma blob_coordinates l d :
  if_longer (VList l) 9
    (fun x => match as_list x ≫= coordinates_in with
              | Some c => setdefault "coordinates" c
              | None => pass
              end) d
  = (inr tt, recorded "coordinates" (list_at l 9 ≫= coordinates_in) d).
Proof.
  rewrite if_longer_list. unfold list_at.
  destruct (l !! 9%nat) as [x|]; [| done]. simpl.
  by destruct (as_list x ≫= coordinates_in).
Qed.

Lemma blob_numbers l d :
  if_longer (VList l) 4
    (fun x => match x with
              | VList r =>
                  bind match r !! 7%nat with
                       | Some y => if truthy y then setdefault "rating" y else pass
                       | None => pass
                       end
                    (fun _ =>
                       match r !! 8%nat with
                       | Some y =>
                           if truthy y then setdefault "reviews_count" y else pass
                       | None => pass
                       end)
              | _ => pass
              end) d
  = (inr tt,
     recorded "reviews_count" (list_at l 4 ≫= fun r => truthy_at r 8)
       (recorded "rating" (list_at l 4 ≫= fun r => truthy_at r 7) d)).
Proof.
  rewrite if_longer_list. unfold list_at.
  destruct (l !! 4%nat) as [x|]; [| done]. simpl.
  destruct x as [| | | | |r|]; try done. simpl. unfold bind, truthy_at.
  destruct (r !! 7%nat) as [y|]; simpl; [destruct (truthy y) |];
    (destruct (r !! 8%nat) as [z|]; simpl; [by destruct (truthy z) | done]).
Qed.

Lemma blob_website l d :
  if_longer (VList l) 7
    (fun x => match x with
              | VList (y :: _) => setdefault "website" y
              | _ => pass
              end) d
  = (inr tt, recorded "website" (list_at l 7 ≫= head) d).
Proof.
  rewrite if_longer_list. unfold list_at.
  destruct (l !! 7%nat) as [x|]; [| done]. simpl.
  by destruct x as [| | | | |[|y r]|].
Qed.

Lemma blob_address l d :
  if_longer (VList l) 2
    (fun x => match x with
              | VList a =>
                  bind (lift (join_truthy a)) (fun addr =>
                    if is_empty addr then pass else setdefault "address" (VStr addr))
              | _ => pass
              end) d
  = match list_at l 2 with
    | Some a =>
        match join_truthy a with
        | inr addr =>
            (inr tt,
             recorded "address" (if is_empty addr then None else Some (VStr addr)) d)
        | inl e => (inl e, d)
        end
    | None => (inr tt, d)
    end.
Proof.
  rewrite if_longer_list. unfold list_at.
  destruct (l !! 2%nat) as [x|]; [| done]. simpl.
  destruct x as [| | | | |a|]; try done. simpl. unfold bind, lift.
  destruct (join_truthy a) as [e|addr]; [done |]. by destruct (is_empty addr).
Qed.

(** [result] once the statements before the address are done. *)
Lemma legacy_blob_body_steps l d :
  let before :=
    recorded "website" (list_at l 7 ≫= head)
      (recorded "reviews_count" (list_at l 4 ≫= fun r => truthy_at r 8)
         (recorded "rating" (list_at l 4 ≫= fun r => truthy_at r 7)
            (recorded "coordinates" (list_at l 9 ≫= coordinates_in)
               (recorded "place_id" (truthy_at l 10)
                  (recorded "name" (truthy_at l 11) d))))) in
  legacy_blob_body (VList l) d
  = match list_at l 2 with
    | Some a =>
        match join_truthy a with
        | inr addr =>
            (inr tt,
             recorded "categories" (truthy_at l 13)
               (recorded "address"
                  (if is_empty addr then None else Some (VStr addr)) before))
        | inl e => (inl e, before)
        end
    | None => (inr tt, recorded "categories" (truthy_at l 13) before)
    end.
Proof.
  intros before. unfold legacy_blob_body.
  unfold bind at 1. rewrite blob_truthy_item.
  unfold bind at 1. rewrite blob_truthy_item.
  unfold bind at 1. rewrite blob_coordinates.
  unfold bind at 1. rewrite blob_numbers.
  unfold bind at 1. rewrite blob_website.
  unfold bind at 1. rewrite blob_address. fold before.
  destruct (list_at l 2) as [a|]; [| apply blob_truthy_item].
  destruct (join_truthy a) as [e|addr]; [done |]. apply blob_truthy_item.
Qed.

Ltac lookup_recorded :=
  repeat (rewrite lookup_recorded_ne by done);
  first [ apply lookup_empty
        | rewrite lookup_recorded_eq;
          [reflexivity
          | repeat (rewrite lookup_recorded_ne by done); apply lookup_empty] ].

(** X7: what the legacy blob gives, field by field, on a fresh [result].
    The name, the place id, the coordinates, the rating, the review
    count and the website are read from their positions whatever the
    rest of the blob holds: a position out of range or of the wrong type
    leaves the field out and raises nothing.  Only the join of the
    address can raise (an item that is truthy and not a string); the
    address and the categories, which come after, are then missing. *)
Theorem legacy_blob_fields :
  forall l,
    let result := (_extract_legacy_blob (VList l) ∅).2 in
    result !! "name" = truthy_at l 11
    /\ result !! "place_id" = truthy_at l 10
    /\ result !! "coordinates" = list_at l 9 ≫= coordinates_in
    /\ result !! "rating" = list_at l 4 ≫= (fun r => truthy_at r 7)
    /\ result !! "reviews_count" = list_at l 4 ≫= (fun r => truthy_at r 8)
    /\ result !! "website" = list_at l 7 ≫= head
    /\ (forall a e,
          list_at l 2 = Some a -> join_truthy a = inl e ->
          result !! "address" = None /\ result !! "categories" = None)
    /\ (forall a addr,
          list_at l 2 = Some a -> join_truthy a = inr addr ->
          result !! "address" = (if is_empty addr then None else Some (VStr addr))
          /\ result !! "categories" = truthy_at l 13)
    /\ (list_at l 2 = None ->
        result !! "address" = None /\ result !! "categories" = truthy_at l 13).
Proof.
  intros l result. subst result. unfold _extract_legacy_blob, try_except.
  cbn [snd]. rewrite legacy_blob_body_steps. cbv zeta.
  destruct (list_at l 2) as [a|];
    [destruct (join_truthy a) as [e|addr] eqn:Hjoin |];
    cbn [snd]; split_and!; try lookup_recorded;
    intros; simplify_eq;
    try match goal with
        | H : join_truthy ?a = _, H' : join_truthy ?a = _ |- _ =>
            rewrite H in H'; simplify_eq
        end;
    split; lookup_recorded.
Qed.

(** A blob whose address list holds a number: the join raises, the
    address and the categories are missing; the name, read before, is
    there. *)
Lemma legacy_blob_fields_example :
  let l := [VNone; VNone; VList [VStr "12 Rue"; VInt 75001]; VNone; VNone;
            VNone; VNone; VNone; VNone; VNone; VStr "0x1:0x2";
            VStr "Cafe Roma"; VNone; VList [VStr "Cafe"]] in
  let result := (_extract_legacy_blob (VList l) ∅).2 in
  result !! "name" = Some (VStr "Cafe Roma")
  /\ result !! "address" = None /\ result !! "categories" = None.
Proof.
  intros l result.
  destruct (legacy_blob_fields l) as (Hname & _ & _ & _ & _ & _ & Hraise & _).
  split; [exact Hname |].
  apply (Hraise [VStr "12 Rue"; VInt 75001] TypeError); reflexivity.
Defined.

(** X8: the new structure.  When the decoded state holds a list at
    [5][3][2] with a string at [0] and, at [7], a list with numbers at
    [2] and [3], the parser returns the place id and the coordinates,
    and nothing else: since it found something there, it does not look
    at the legacy structure at [3][6]. *)
Theorem new_structure_recovers_place :
  forall json_loads html m top data place_id c lat lng,
    search APP_STATE_RE html = Some m ->
    opens_json (strip (group1 m)) = true ->
    json_loads (strip (group1 m)) = inr (VList top) ->
    nested_list [5; 3; 2]%nat top = Some data ->
    data !! 0%nat = Some (VStr place_id) ->
    data !! 7%nat = Some (VList c) ->
    c !! 2%nat = Some lat -> c !! 3%nat = Some lng ->
    is_number lat = true -> is_number lng = true ->
    init_data_of json_loads html
    = <["coordinates" := coordinates_of lat lng]> {[ "place_id" := VStr place_id ]}.
Proof.
  intros json_loads html m top data place_id c lat lng
    Hm Hopen Hloads Hdata Hid Hc Hlat Hlng Hnlat Hnlng.
  unfold init_data_of, _extract_from_app_init_state, try_except,
    app_init_state_body.
  rewrite Hm. cbv zeta. rewrite Hopen. cbn [negb].
  unfold bind at 1, lift at 1. rewrite Hloads.
  assert (new_structure (VList top) ∅
          = (inr tt, <["coordinates" := coordinates_of lat lng]>
                       {[ "place_id" := VStr place_id ]})) as Hnew.
  { unfold new_structure. cbn [as_list mbind option_bind]. rewrite Hdata.
    pose proof (lookup_lt_Some _ _ _ Hc) as Hlen.
    rewrite (proj2 (Nat.ltb_lt 1 (length data))) by lia. rewrite Hid.
    cbn [nested_list]. rewrite Hc. cbn [mbind option_bind].
    unfold coordinates_in.
    pose proof (lookup_lt_Some _ _ _ Hlng) as Hlenc.
    rewrite (proj2 (Nat.ltb_lt 3 (length c))) by lia.
    rewrite Hlat, Hlng, Hnlat, Hnlng. reflexivity. }
  unfold bind. rewrite Hnew. unfold legacy_structure, if_result_empty.
  rewrite bool_decide_eq_false_2; [done |]. apply insert_non_empty.
Qed.

(** A state in the new structure, with a name in the legacy position
    that is not looked at. *)
Lemma new_structure_example :
  let html :=
    lit (";window.APP_INITIALIZATION_STATE="
         +:+ "[0,0,0,[0,0,0,0,0,0,[0,0,0,0,0,0,0,0,0,0,0,`Old name`]],0,"
         +:+ "[0,0,0,[0,0,[`0x89c2:0x1`,`Cafe Roma`,0,0,0,0,0,"
         +:+ "[null,null,40.7,-74.0]]]]];window.APP_FLAGS") in
  init_data_of Json.loads html
  = <["coordinates" :=
        coordinates_of (VFloat (FDec 407 (-1))) (VFloat (FDec (-740) (-1)))]>
      {[ "place_id" := VStr "0x89c2:0x1" ]}.
Proof.
  intros html.
  assert (exists m, search APP_STATE_RE html = Some m
                    /\ opens_json (strip (group1 m)) = true
                    /\ exists top data c,
                         Json.loads (strip (group1 m)) = inr (VList top)
                         /\ nested_list [5; 3; 2]%nat top = Some data
                         /\ data !! 0%nat = Some (VStr "0x89c2:0x1")
                         /\ data !! 7%nat = Some (VList c)
                         /\ c !! 2%nat = Some (VFloat (FDec 407 (-1)))
                         /\ c !! 3%nat = Some (VFloat (FDec (-740) (-1))))
    as (m & Hm & Hopen & top & data & c & Hloads & Hdata & Hid & Hc & Hlat & Hlng).
  { eexists. split; [vm_compute; reflexivity |]. split; [vm_compute; reflexivity |].
    eexists _, _, _. split; [vm_compute; reflexivity |].
    split; [vm_compute; reflexivity |]. repeat split. }
  exact (new_structure_recovers_place Json.loads html m top data _ c _ _
           Hm Hopen Hloads Hdata Hid Hc Hlat Hlng eq_refl eq_refl).
Defined.

(** ** The review count and the string-framed blob, in general *)

(** X9: the review count with comma separators.  In a page that holds
    the rating display for the first time after [pre], then a rating of
    digits and periods, a [<], then the first [>] that is followed at
    once by a count of digits and commas, white space and the word
    review, the extractor returns what [int] makes of the count with its
    commas removed (the removal of periods that follows has nothing to
    remove): nothing when no digit is left or when more than 4300 are,
    and otherwise the value of the digits. *)
Theorem reviews_count_reads_commas :
  forall pre rating between count spaces more,
    absent_before RATING_MARKER pre = true ->
    rating <> EmptyString -> all_chars (either is_digit (chr ".")) rating = true ->
    no_count_yet between = true ->
    count <> EmptyString -> all_chars count_char count = true ->
    spaces <> EmptyString -> all_chars is_space spaces = true ->
    let digits := remove_char "," count in
    let result :=
      _extract_reviews_count
        (pre +:+ RATING_MARKER +:+ rating +:+ "<" +:+ between +:+ ">" +:+ count
         +:+ spaces +:+ "review" +:+ more) in
    result = py_int digits
    /\ (digits = EmptyString \/ (INT_MAX_STR_DIGITS < String.length digits)%nat ->
        result = None)
    /\ (digits <> EmptyString ->
        (String.length digits <= INT_MAX_STR_DIGITS)%nat ->
        exists n, result = Some n /\ digits_value 0 digits = Some n /\ 0 <= n).
Proof.
  intros pre rating between count spaces more Hpre Hr Hrating Hbetween Hc Hcount
    Hs Hspaces digits result.
  assert (all_chars is_digit digits = true) as Hdigits.
  { subst digits. clear -Hcount.
    induction count as [|c count IH]; [done |]. simpl in *.
    apply andb_true_iff in Hcount as [Hc Hcount].
    destruct (Ascii.eqb_spec c ","); [by apply IH |]. simpl.
    rewrite IH by done. rewrite andb_true_r.
    unfold count_char, either, chr in Hc. apply orb_true_iff in Hc as [Hd|He];
      [done |]. by apply Ascii.eqb_eq in He. }
  assert (remove_char "." digits = digits) as Hperiods.
  { clear -Hdigits. induction digits as [|c digits IH]; [done |]. simpl in *.
    apply andb_true_iff in Hdigits as [Hc Hdigits].
    destruct (Ascii.eqb_spec c "."); [by subst |]. by rewrite IH. }
  assert (result = py_int digits) as Hresult.
  { subst result. rewrite reviews_count_with_commas by done.
    fold digits. by rewrite Hperiods. }
  split; [done |]. rewrite Hresult. unfold py_int. split.
  - intros [-> | Hlong]; [done |].
    destruct (is_empty digits); [done |].
    by rewrite (proj2 (Nat.ltb_lt _ _) Hlong).
  - intros Hne Hlen. destruct digits as [|c digits']; [done |].
    cbn [is_empty]. rewrite (proj2 (Nat.ltb_ge _ _) Hlen).
    destruct (digits_value 0 (String c digits')) as [n|] eqn:Hn.
    + exists n. split_and!; [done | done |]. by eapply digits_value_nonneg.
    + apply digits_value_None in Hn. by rewrite Hn in Hdigits.
Qed.

Lemma all_chars_repeat_char p c n :
  p c = true -> all_chars p (repeat_char c n) = true.
Proof. intros Hc. induction n as [|n IH]; [done |]. simpl. by rewrite Hc, IH. Qed.

Lemma length_repeat_char c n : String.length (repeat_char c n) = n.
Proof. induction n as [|n IH]; [done |]. simpl. by rewrite IH. Qed.

Lemma remove_char_repeat_char a c n :
  Ascii.eqb c a = false -> remove_char a (repeat_char c n) = repeat_char c n.
Proof. intros Hc. induction n as [|n IH]; [done |]. simpl. by rewrite Hc, IH. Qed.

(** Behind a rating and two tags: a count of millions, which is read,
    and a count of 4301 digits, of which the conversion fails, so that
    nothing is returned. *)
Lemma reviews_count_reads_commas_example :
  let page count :=
    lit "<div class=`" +:+ RATING_MARKER +:+ "4.5" +:+ "<" +:+ "/div><span"
    +:+ ">" +:+ count +:+ " " +:+ "review" +:+ "s</span>" in
  _extract_reviews_count (page "1,234,567") = Some 1234567
  /\ _extract_reviews_count (page (repeat_char "1" 4301)) = None.
Proof.
  intros page. split.
  - destruct (reviews_count_reads_commas (lit "<div class=`") "4.5" "/div><span"
                "1,234,567" " " "s</span>") as (Hvalue & _ & _);
      [first [discriminate | vm_compute; reflexivity] .. |].
    exact Hvalue.
  - destruct (reviews_count_reads_commas (lit "<div class=`") "4.5" "/div><span"
                (repeat_char "1" 4301) " " "s</span>") as (_ & Hnone & _);
      [reflexivity | discriminate | reflexivity | reflexivity | discriminate
      | by apply all_chars_repeat_char | discriminate | reflexivity |].
    apply Hnone. right.
    rewrite remove_char_repeat_char, length_repeat_char by done.
    unfold INT_MAX_STR_DIGITS. lia.
Defined.

(** X10: the string form of the legacy blob.  A string that opens with
    the prefix and has no [)'] after it is read as the blob it frames:
    once the prefix, the line feeds after it and the surrounding white
    space are gone, what the decoder makes of the rest, if it is a list
    with a list at index 6, gives what the direct form of that list
    gives.  A string without the prefix is read in the same way, as it
    stands. *)
Theorem legacy_string_reads_blob :
  forall json_loads body parsed blob d,
    (contains ")'" body = false ->
     opens_json (strip (lstrip_by (chr newline) body)) = true ->
     json_loads (strip (lstrip_by (chr newline) body)) = inr (VList parsed) ->
     parsed !! 6%nat = Some (VList blob) ->
     _try_parse_legacy_string json_loads (")]}'" +:+ body) d
     = _extract_legacy_blob (VList blob) d)
    /\ (startswith ")]}'" body = false ->
        opens_json (strip body) = true ->
        json_loads (strip body) = inr (VList parsed) ->
        parsed !! 6%nat = Some (VList blob) ->
        _try_parse_legacy_string json_loads body d
        = _extract_legacy_blob (VList blob) d).
Proof.
  intros json_loads body parsed blob d. split.
  - intros Hfree Hopen Hloads Hblob.
    by apply (legacy_string_transparent json_loads body parsed blob d).
  - intros Hprefix Hopen Hloads Hblob.
    unfold _try_parse_legacy_string, legacy_string_body, strip_prefix.
    rewrite Hprefix, Hopen.
    unfold try_except at 1, bind, lift. rewrite Hloads. simpl. by rewrite Hblob.
Qed.

(** A blob in its string form, the prefix followed by a line feed, and
    the same without the prefix. *)
Lemma legacy_string_reads_blob_example :
  let blob :=
    [VNone; VNone; VNone; VNone; VNone; VNone; VNone; VNone; VNone; VNone;
     VStr "0x1:0x2"; VStr "Chez l'Ami"] in
  let body :=
    lit ("~[null,null,null,null,null,null,[null,null,null,null,null,null,"
         +:+ "null,null,null,null,`0x1:0x2`,`Chez l'Ami`]]") in
  _try_parse_legacy_string Json.loads (")]}'" +:+ body) ∅
  = _extract_legacy_blob (VList blob) ∅
  /\ _try_parse_legacy_string Json.loads body ∅
     = _extract_legacy_blob (VList blob) ∅.
Proof.
  intros blob body.
  destruct (legacy_string_reads_blob Json.loads body
              [VNone; VNone; VNone; VNone; VNone; VNone; VList blob] blob ∅)
    as [Hframed Hplain].
  split; [apply Hframed | apply Hplain]; vm_compute; reflexivity.
Defined.

(** ** The per-item loop *)

(** The probe answers one of its four statuses, so of the branches on
    the status only the first four are ever taken: the record is left as
    it is, or its website is replaced by one of three sentinels. *)
Lemma record_status_cases response website_url place_data :
  (try_load_website response = inr "accessible"
   /\ record_status (try_load_website response) website_url place_data = place_data)
  \/ (try_load_website response <> inr "accessible"
      /\ exists sentinel,
           sentinel ∈ PROBE_SENTINELS
           /\ record_status (try_load_website response) website_url place_data
              = mark_website sentinel website_url place_data).
Proof.
  assert (forall status, status ∈ ["forbidden"; "timeout"; "error"] ->
    inr status <> inr (A := raised) "accessible"
    /\ exists sentinel,
         sentinel ∈ PROBE_SENTINELS
         /\ record_status (inr status) website_url place_data
            = mark_website sentinel website_url place_data) as Hmark.
  { intros status Hs. split.
    - intros [= ->]. by repeat (apply elem_of_cons in Hs as [Hs|Hs]; [done |]);
        apply elem_of_nil in Hs.
    - repeat (apply elem_of_cons in Hs as [->|Hs];
              [eexists; split; [| reflexivity]; unfold PROBE_SENTINELS; in_list |]).
      by apply elem_of_nil in Hs. }
  unfold try_load_website, probe_body.
  destruct response as [[message|message]|[status_code|]].
  - right. apply Hmark. in_list.
  - right. cbv zeta. case_match; apply Hmark; in_list.
  - case_bool_decide; [right; apply Hmark; in_list |].
    destruct (400 <=? status_code); [right; apply Hmark; in_list | by left].
  - right. apply Hmark; in_list.
Qed.

Lemma lookup_mark_website sentinel website_url place_data key :
  mark_website sentinel website_url place_data !! key
  = if bool_decide (key = "original_website") then Some website_url
    else if bool_decide (key = "website") then Some (VStr sentinel)
    else place_data !! key.
Proof.
  unfold mark_website. case_bool_decide as H1; [subst; apply lookup_insert_eq |].
  rewrite lookup_insert_ne by done.
  case_bool_decide as H2; [subst; apply lookup_insert_eq |].
  by rewrite lookup_insert_ne.
Qed.

(** X11: the record appended for a link.  It carries the link.  When its
    [original_website] is set, that is the website extracted from the
    page, the probe did not find it accessible, and [website] holds one
    of the three sentinels (never the one of the handler around the
    probe, which the probe cannot reach).  When it is not set, [website]
    is as extracted.  Every other field is as extracted. *)
Theorem appended_record :
  forall json_loads link html probe results record,
    process_link json_loads link (inr html) probe results = results ++ [record] ->
    exists place_data,
      extract_place_data json_loads (Some html) = Some place_data
      /\ record !! "link" = Some (VStr link)
      /\ (forall website_url,
            record !! "original_website" = Some website_url ->
            place_data !! "website" = Some website_url
            /\ try_load_website probe <> inr "accessible"
            /\ exists sentinel,
                 sentinel ∈ PROBE_SENTINELS
                 /\ record !! "website" = Some (VStr sentinel))
      /\ (record !! "original_website" = None ->
          record !! "website" = place_data !! "website")
      /\ (forall key,
            key ∉ ["link"; "website"; "original_website"] ->
            record !! key = place_data !! key).
Proof.
  intros json_loads link html probe results record. unfold process_link.
  destruct (extract_place_data json_loads (Some html)) as [place_data|] eqn:E.
  2: { intros H. apply (f_equal length) in H. rewrite length_app in H.
       simpl in H. lia. }
  case_bool_decide as Hne.
  { intros H. apply (f_equal length) in H. rewrite length_app in H.
    simpl in H. lia. }
  cbv zeta. intros H. apply app_inv_head in H. injection H as <-.
  exists place_data. split; [done |].
  apply extract_place_data_Some in E as [E _].
  assert (place_data !! "original_website" = None) as Horig.
  { destruct (place_data !! "original_website") as [v|] eqn:Hv; [| done].
    rewrite E in Hv. apply build_lookup_Some in Hv as [Hin _].
    by repeat (apply elem_of_cons in Hin as [?|Hin]; [done |]);
      apply elem_of_nil in Hin. }
  set (linked := <["link" := VStr link]> place_data).
  assert (linked !! "website" = place_data !! "website") as Hweb
    by (by apply lookup_insert_ne).
  assert (linked !! "original_website" = None) as Hlorig
    by (unfold linked; by rewrite lookup_insert_ne).
  assert (linked !! "link" = Some (VStr link)) as Hlink
    by apply lookup_insert_eq.
  assert (forall key, key ∉ ["link"; "website"; "original_website"] ->
            linked !! key = place_data !! key) as Hother.
  { intros key Hkey. apply lookup_insert_ne. intros <-. apply Hkey. in_list. }
  rewrite Hweb.
  destruct (truthy _ && negb _) eqn:Hprobe.
  2: { split_and!; [done | | done | done]. intros u Hu. by rewrite Hlorig in Hu. }
  destruct (place_data !! "website") as [u|] eqn:Hu; [| done]. simpl.
  destruct (record_status_cases probe u linked) as [[Hacc ->] | [Hacc (s & Hs & ->)]].
  - split_and!; [done | | by rewrite Hweb | done].
    intros u' Hu'. by rewrite Hlorig in Hu'.
  - rewrite !lookup_mark_website. simpl. split_and!; [done | | done |].
    + intros u' [= <-]. split_and!; [done | done |]. by exists s.
    + intros key Hkey. rewrite lookup_mark_website.
      case_bool_decide as H1; [subst; exfalso; apply Hkey; in_list |].
      case_bool_decide as H2; [subst; exfalso; apply Hkey; in_list |].
      by apply Hother.
Qed.

(** A page with a name and a website, and a probe answered 403: the
    record carries the sentinel, and the URL under [original_website]. *)
Lemma appended_record_example :
  let link := "https://www.google.com/maps/place/Cafe+Roma/" in
  let html :=
    lit "<h1>Cafe Roma</h1><a aria-label=`Website: example.com `></a>" in
  let record :=
    mark_website NEEDS_ACCESS (VStr "https://example.com")
      (<["link" := VStr link]>
         (<["name" := VStr "Cafe Roma"]>
            {[ "website" := VStr "https://example.com" ]})) in
  process_link Json.loads link (inr html) (inr (Some 403)) [] = [] ++ [record]
  /\ try_load_website (inr (Some 403)) <> inr "accessible"
  /\ exists sentinel,
       sentinel ∈ PROBE_SENTINELS /\ record !! "website" = Some (VStr sentinel).
Proof.
  intros link html record.
  assert (process_link Json.loads link (inr html) (inr (Some 403)) []
          = [] ++ [record]) as Hrun by (vm_compute; reflexivity).
  destruct (appended_record Json.loads link html (inr (Some 403)) [] record Hrun)
    as (place_data & _ & _ & Hmarked & _).
  assert (record !! "original_website" = Some (VStr "https://example.com"))
    as Horiginal by (vm_compute; reflexivity).
  exact (conj Hrun (proj2 (Hmarked _ Horiginal))).
Defined.

Lemma record_status_link response website_url place_data :
  record_status (try_load_website response) website_url place_data !! "link"
  = place_data !! "link".
Proof.
  destruct (record_status_cases response website_url place_data)
    as [[_ ->] | [_ (sentinel & _ & ->)]]; [done |].
  by rewrite lookup_mark_website.
Qed.

(** What one visit contributes does not depend on what was collected
    before it: no record or one, which carries the link. *)
Lemma process_link_alone json_loads link page probe results :
  process_link json_loads link page probe results
  = results ++ process_link json_loads link page probe []
  /\ (length (process_link json_loads link page probe []) <= 1)%nat
  /\ Forall (fun record => record !! "link" = Some (VStr link))
       (process_link json_loads link page probe []).
Proof.
  assert (results = results ++ []
          /\ (length ([] : list (gmap string pyval)) <= 1)%nat
          /\ Forall (fun record : gmap string pyval =>
                       record !! "link" = Some (VStr link)) []) as Hnone.
  { rewrite app_nil_r. split_and!; [done | simpl; lia | constructor]. }
  unfold process_link. destruct page as [e|html]; [done |].
  destruct (extract_place_data _ _) as [d|]; [| done].
  case_bool_decide; [done |].
  split_and!; [done | simpl; lia |]. apply Forall_singleton. cbv zeta.
  case_match; [| apply lookup_insert_eq].
  rewrite record_status_link. apply lookup_insert_eq.
Qed.

(** What a visit contributes when it stands alone. *)
Lemma process_links_alone json_loads : forall visits results,
  process_links json_loads visits results
  = results
    ++ concat (map (fun visit : string * (raised + string) * goto_result =>
                      process_link json_loads visit.1.1 visit.1.2 visit.2 [])
                 visits).
Proof.
  induction visits as [|[[link page] probe] visits IH]; intros results; simpl.
  - by rewrite app_nil_r.
  - rewrite IH.
    destruct (process_link_alone json_loads link page probe results) as [-> _].
    by rewrite <- app_assoc.
Qed.

(** X12: the per-item loop only appends: what the earlier links gave
    stays, in order, whatever the later visits do (a page that fails to
    load or yields no field adds nothing and removes nothing), and each
    visit contributes what it would contribute alone, at most one
    record. *)
Theorem visits_are_independent :
  forall json_loads visits results,
    process_links json_loads visits results
    = results
      ++ concat (map (fun visit : string * (raised + string) * goto_result =>
                        process_link json_loads visit.1.1 visit.1.2 visit.2 [])
                   visits)
    /\ Forall (fun visit : string * (raised + string) * goto_result =>
                 (length (process_link json_loads visit.1.1 visit.1.2 visit.2 [])
                  <= 1)%nat) visits
    /\ (length (process_links json_loads visits results)
        <= length results + length visits)%nat.
Proof.
  intros json_loads visits results. split; [apply process_links_alone |].
  split.
  - apply Forall_forall. intros [[link page] probe] _.
    apply (process_link_alone json_loads link page probe []).
  - rewrite process_links_alone, length_app. apply Nat.add_le_mono_l.
    clear results. induction visits as [|[[link page] probe] visits IH]; [done |].
    simpl. rewrite length_app.
    destruct (process_link_alone json_loads link page probe []) as (_ & Hlen & _).
    simpl in *. lia.
Qed.

(** ** What the scroll loop collects, and when it stops *)

Section CollectedLinks.

Variable set_to_list : gset string -> list string.
Hypothesis set_to_list_perm : forall s, set_to_list s ≡ₚ elements s.

(** What a pass leaves holds nothing but what was held and what the
    pass saw; short of the bound it holds all of that. *)
Lemma scroll_step_links max_places st obs :
  let links := place_links st ∪ list_to_set (current_links_list obs) in
  match scroll_step set_to_list max_places st obs with
  | Continue st' => place_links st' = links
  | Break ReachedMax links' => links' ⊆ links
  | Break _ links' => links' = links
  end.
Proof.
  unfold scroll_step. cbv beta iota zeta.
  destruct (match max_places with Some m => _ | None => false end).
  { exact (truncated_subseteq set_to_list set_to_list_perm _ _). }
  destruct (new_height obs =? last_height st); [| done].
  destruct (0 <? end_marker_count obs)%nat; [done |].
  destruct (negb _); [| done].
  by destruct (MAX_SCROLL_ATTEMPTS_WITHOUT_NEW_LINKS <=? _)%nat.
Qed.

Lemma scroll_loop_links max_places : forall passes st why links,
  scroll_loop set_to_list max_places st passes = Collected why links ->
  links ⊆ place_links st ∪ seen_links passes
  /\ (why <> Some ReachedMax ->
      exists used unused,
        passes = used ++ unused
        /\ scroll_loop set_to_list max_places st used = Collected why links
        /\ links = place_links st ∪ seen_links used).
Proof.
  induction passes as [|[e|obs] passes IH]; intros st why links; simpl; try done.
  pose proof (scroll_step_links max_places st obs) as Hstep. cbv zeta in Hstep.
  destruct (scroll_step set_to_list max_places st obs) as [st'|why' links'] eqn:E.
  - intros [Hsub Heq]%IH. rewrite Hstep in Hsub, Heq.
    split; [by rewrite (assoc_L (∪)) |].
    intros Hwhy. destruct (Heq Hwhy) as (used & unused & -> & Hrun & ->).
    exists (inr obs :: used), unused. simpl. rewrite E.
    split_and!; [done | done | by rewrite (assoc_L (∪))].
  - intros [= <- <-].
    set (current := list_to_set (current_links_list obs) : gset string) in *.
    assert (place_links st ∪ current ⊆ place_links st ∪ (current ∪ seen_links passes))
      as Hall by (rewrite (assoc_L (∪)); apply union_subseteq_l).
    split.
    + destruct why'; [by etrans | by rewrite Hstep ..].
    + intros Hwhy. exists [inr obs], passes. simpl. rewrite E.
      split_and!; [done | done |]. fold current.
      rewrite (right_id_L ∅ (∪)). by destruct why'.
Qed.

(** X13: the links on which the per-item loop starts.  Each of them is the
    URL of the page on which the wait for the feed timed out, or was
    seen under the feed in a pass.  When the loop was not left on the
    bound, nothing is lost: the links are exactly the start and what was
    seen in the passes up to the one that ended the loop. *)
Theorem collected_links_were_seen :
  forall max_places wait feed_count height passes why links,
    collect_links set_to_list max_places wait feed_count height passes
    = Collected why links ->
    links ⊆ start_links wait ∪ seen_links passes
    /\ (why <> Some ReachedMax ->
        exists used unused,
          passes = used ++ unused
          /\ collect_links set_to_list max_places wait feed_count height used
             = Collected why links
          /\ links = start_links wait ∪ seen_links used).
Proof.
  intros max_places wait feed_count height passes why links. unfold collect_links.
  assert (forall start : gset string,
    (if (0 <? feed_count)%nat
     then scroll_loop set_to_list max_places (ScrollState start height 0) passes
     else Collected None start) = Collected why links ->
    links ⊆ start ∪ seen_links passes
    /\ (why <> Some ReachedMax ->
        exists used unused,
          passes = used ++ unused
          /\ (if (0 <? feed_count)%nat
              then scroll_loop set_to_list max_places (ScrollState start height 0) used
              else Collected None start) = Collected why links
          /\ links = start ∪ seen_links used)) as Hstart.
  { intros start. destruct (0 <? feed_count)%nat.
    - apply scroll_loop_links.
    - intros [= <- <-]. split; [apply union_subseteq_l |]. intros _.
      exists [], passes. simpl. by rewrite (right_id_L ∅ (∪)). }
  destruct wait as [|page_url|]; [apply Hstart | | done].
  destruct (contains "/maps/place/" page_url); [apply Hstart | done].
Qed.

Lemma stalled_step max_places st obs :
  stalled (place_links st) (last_height st) (inr obs) ->
  below_bound max_places (place_links st) ->
  scroll_step set_to_list max_places st obs
  = if (MAX_SCROLL_ATTEMPTS_WITHOUT_NEW_LINKS <=? S (scroll_attempts_no_new st))%nat
    then Break NoNewLinks (place_links st)
    else Continue (ScrollState (place_links st) (last_height st)
                     (S (scroll_attempts_no_new st))).
Proof.
  intros (obs' & [= <-] & Hh & Hsub & Hm) Hbound. unfold scroll_step.
  cbv beta iota zeta.
  rewrite (comm_L (∪) (place_links st)), (subseteq_union_1_L _ _ Hsub).
  rewrite (subseteq_empty_difference_L _ _ Hsub).
  rewrite bool_decide_eq_true_2 by done. simpl negb.
  rewrite Hh, Z.eqb_refl, Hm. simpl.
  destruct max_places as [m|]; [| done]. simpl in Hbound.
  destruct (Z.geb_spec (Z.of_nat (size (place_links st))) m); [lia | done].
Qed.

(** X14: a feed that no longer moves stops the loop.  From a state of the
    loop short of the bound, passes that each see the known height, no
    new link and no end-of-list marker, as many as are missing to make
    15 in a row, end the loop, on the links held. *)
Theorem stalled_feed_stops :
  forall max_places stalled_passes after st,
    (scroll_attempts_no_new st < MAX_SCROLL_ATTEMPTS_WITHOUT_NEW_LINKS)%nat ->
    below_bound max_places (place_links st) ->
    Forall (stalled (place_links st) (last_height st)) stalled_passes ->
    (MAX_SCROLL_ATTEMPTS_WITHOUT_NEW_LINKS
     <= scroll_attempts_no_new st + length stalled_passes)%nat ->
    scroll_loop set_to_list max_places st (stalled_passes ++ after)
    = Collected (Some NoNewLinks) (place_links st).
Proof.
  intros max_places stalled_passes after.
  induction stalled_passes as [|pass stalled_passes IH]; intros st Hk Hbound Hall Hlen.
  { simpl in Hlen. lia. }
  apply Forall_cons in Hall as [Hpass Hall].
  destruct Hpass as (obs & -> & Hpass).
  assert (stalled (place_links st) (last_height st) (inr obs)) as Hst
    by (by exists obs).
  simpl. rewrite (stalled_step _ _ _ Hst Hbound).
  destruct (MAX_SCROLL_ATTEMPTS_WITHOUT_NEW_LINKS <=? _)%nat eqn:Hmax; [done |].
  apply Nat.leb_gt in Hmax.
  apply (IH (ScrollState (place_links st) (last_height st)
               (S (scroll_attempts_no_new st)))); simpl; try done.
  simpl in Hlen. lia.
Qed.

End CollectedLinks.

(** Two passes: the second sees the end-of-list marker at an unchanged
    height; the three links seen are all collected. *)
Lemma collected_links_were_seen_example :
  let passes : list (raised + scroll_obs) :=
    [inr (ScrollObs ["https://maps/place/a"; "https://maps/place/b"] 1800 0);
     inr (ScrollObs ["https://maps/place/b"; "https://maps/place/c"] 1800 1)] in
  let links : gset string :=
    {[ "https://maps/place/a"; "https://maps/place/b"; "https://maps/place/c" ]} in
  collect_links elements None FeedVisible 1 900 passes
  = Collected (Some ReachedEnd) links
  /\ links ⊆ start_links FeedVisible ∪ seen_links passes.
Proof.
  intros passes links.
  assert (collect_links elements None FeedVisible 1 900 passes
          = Collected (Some ReachedEnd) links) as Hrun by (vm_compute; reflexivity).
  exact (conj Hrun
           (proj1 (collected_links_were_seen elements (fun s => reflexivity _)
                     None FeedVisible 1%nat 900 passes _ links Hrun))).
Defined.

(** Under a bound of five, with two links held and four stalled passes
    already counted: eleven more end the loop, whatever comes after. *)
Lemma stalled_feed_stops_example :
  let links : gset string := {[ "https://maps/place/a"; "https://maps/place/b" ]} in
  let pass : raised + scroll_obs := inr (ScrollObs ["https://maps/place/a"] 900 0) in
  let after : list (raised + scroll_obs) :=
    [inr (ScrollObs ["https://maps/place/c"] 1800 0)] in
  scroll_loop elements (Some 5) (ScrollState links 900 4) (replicate 11 pass ++ after)
  = Collected (Some NoNewLinks) links.
Proof.
  intros links pass after.
  apply (stalled_feed_stops elements (Some 5) (replicate 11 pass) after
           (ScrollState links 900 4)).
  - vm_compute. lia.
  - vm_compute. reflexivity.
  - apply Forall_replicate. exists (ScrollObs ["https://maps/place/a"] 900 0).
    split_and!; [reflexivity | reflexivity | | reflexivity].
    apply (bool_decide_unpack _). vm_compute. exact I.
  - vm_compute. lia.
Defined.

(** ** A negative bound *)

Section NegativeBound.

Variable set_to_list : gset string -> list string.
Hypothesis set_to_list_perm : forall s, set_to_list s ≡ₚ elements s.

(** X15: a negative bound.  A [max_places] below zero is a supplied bound
    that every count reaches: the loop is left in its first pass, and of
    the links held after that pass the last [- max_places] of the
    listing are dropped, as the slice of Python does; with a bound of
    -1 and five links seen, four are kept. *)
Theorem negative_bound_drops_links :
  forall (m : Z) st obs passes,
    m < 0 ->
    let held := place_links st ∪ list_to_set (current_links_list obs) in
    exists kept,
      scroll_loop set_to_list (Some m) st (inr obs :: passes)
      = Collected (Some ReachedMax) kept
      /\ kept ⊆ held
      /\ Z.of_nat (size kept) = Z.max 0 (Z.of_nat (size held) + m).
Proof.
  intros m st obs passes Hm held. simpl. unfold scroll_step. cbv beta iota zeta.
  fold held.
  destruct (Z.geb_spec (Z.of_nat (size held)) m) as [_|Hlt]; [| lia].
  eexists. split; [reflexivity |].
  split; [exact (truncated_subseteq set_to_list set_to_list_perm _ _) |].
  simpl. unfold slice_to. destruct (Z.leb_spec 0 m) as [|_]; [lia |].
  assert (NoDup (set_to_list held)) as Hnd
    by (rewrite set_to_list_perm; apply NoDup_elements).
  assert (length (set_to_list held) = size held) as Hlen
    by (by rewrite set_to_list_perm).
  rewrite size_list_to_set by (eapply sublist_NoDup; [done | apply sublist_take]).
  rewrite length_take. lia.
Qed.

End NegativeBound.

(** Five links seen in the first pass under a bound of -1. *)
Lemma negative_bound_example :
  let obs :=
    ScrollObs ["https://maps/place/a"; "https://maps/place/b"; "https://maps/place/c";
               "https://maps/place/d"; "https://maps/place/e"] 1800 0 in
  exists kept,
    scroll_loop elements (Some (-1)) (ScrollState ∅ 900 0) [inr obs]
    = Collected (Some ReachedMax) kept
    /\ kept ⊆ ∅ ∪ list_to_set (current_links_list obs)
    /\ Z.of_nat (size kept) = 4.
Proof.
  intros obs.
  destruct (negative_bound_drops_links elements (fun s => reflexivity _) (-1)
              (ScrollState ∅ 900 0) obs []) as (kept & Hrun & Hsub & Hsize);
    [lia |].
  exists kept. split_and!; [exact Hrun | exact Hsub |].
  rewrite Hsize. vm_compute. reflexivity.
Defined.

(** ** The run as a whole *)

Section RunProperties.

Variable json_loads : string -> exn + pyval.
Variable set_to_list : gset string -> list string.
Variable iteration_order : gset string -> list string.
Hypothesis set_to_list_perm : forall s, set_to_list s ≡ₚ elements s.
Hypothesis iteration_order_perm : forall s, iteration_order s ≡ₚ elements s.

Lemma collect_links_within (m : Z) wait feed_count height passes why links :
  1 <= m ->
  collect_links set_to_list (Some m) wait feed_count height passes
  = Collected why links ->
  Z.of_nat (size links) <= m.
Proof.
  intros Hm. unfold collect_links.
  assert (forall start : gset string,
    (size start <= 1)%nat ->
    (if (0 <? feed_count)%nat
     then scroll_loop set_to_list (Some m) (ScrollState start height 0) passes
     else Collected None start) = Collected why links ->
    Z.of_nat (size links) <= m) as Hstart.
  { intros start Hsize. destruct (0 <? feed_count)%nat.
    - intros Hloop.
      by apply (scroll_loop_bounded set_to_list set_to_list_perm) in Hloop
        as (_ & ? & _); [| lia].
    - intros [= <- <-]. lia. }
  destruct wait as [|page_url|]; [| | done].
  - apply Hstart. rewrite size_empty. lia.
  - destruct (contains "/maps/place/" page_url); [| done].
    apply Hstart. rewrite size_singleton. lia.
Qed.

(** What the per-item loop returns over the links of a set: at most one
    record for a link, in the order of the visits. *)
Lemma records_of_links (r : run) : forall links,
  let records :=
    process_links json_loads
      (map (fun link => (link, (visit r link).1, (visit r link).2)) links) [] in
  (length records <= length links)%nat
  /\ map (fun record : gmap string pyval => record !! "link") records
     `sublist_of` map (fun link => Some (VStr link)) links.
Proof.
  intros links records. subst records. rewrite process_links_alone. simpl.
  induction links as [|link links [IHlen IHsub]]; [done |].
  simpl. rewrite length_app, map_app.
  destruct (process_link_alone json_loads link (visit r link).1 (visit r link).2 [])
    as (_ & Hlen & Hlink).
  destruct (process_link json_loads link _ _ []) as [|record [|? ?]];
    simpl in *; [| | lia].
  - split; [lia | by apply sublist_cons].
  - apply Forall_inv in Hlink. rewrite Hlink.
    split; [lia | by apply sublist_skip].
Qed.

(** X16: the bound holds for the run.  With [max_places] set to [m], at
    least 1, a run that returns gives at most [m] records, whatever the
    pages hold and whichever calls raise. *)
Theorem run_respects_bound :
  forall (m : Z) (r : run) results,
    1 <= m ->
    scrape_google_maps json_loads set_to_list iteration_order (Some m) r
    = Some results ->
    Z.of_nat (length results) <= m.
Proof.
  intros m r results Hm. unfold scrape_google_maps.
  destruct (opening r); [intros [= <-]; simpl; lia |].
  destruct (collect_links _ _ _ _ _ _) as [why links| | |] eqn:Hlinks;
    [| intros [= <-]; simpl; lia .. | done].
  intros [= <-]. apply collect_links_within in Hlinks; [| done].
  destruct (records_of_links r (iteration_order links)) as [Hlen _].
  assert (length (iteration_order links) = size links) as Hsize
    by (by rewrite iteration_order_perm).
  lia.
Qed.

(** X17: one record for a link at most.  Every record of a run carries a
    link on which the per-item loop started, and no two records carry
    the same link. *)
Theorem run_records_have_distinct_links :
  forall max_places (r : run) results,
    scrape_google_maps json_loads set_to_list iteration_order max_places r
    = Some results ->
    NoDup (map (fun record : gmap string pyval => record !! "link") results)
    /\ Forall (fun record : gmap string pyval =>
         exists link why links,
           record !! "link" = Some (VStr link)
           /\ collect_links set_to_list max_places (feed_outcome r) (feeds r)
                (start_height r) (scroll_passes r) = Collected why links
           /\ link ∈ links) results.
Proof.
  intros max_places r results. unfold scrape_google_maps.
  assert (NoDup (map (fun record : gmap string pyval => record !! "link") [])
          /\ Forall (fun record : gmap string pyval =>
               exists link why links,
                 record !! "link" = Some (VStr link)
                 /\ collect_links set_to_list max_places (feed_outcome r) (feeds r)
                      (start_height r) (scroll_passes r) = Collected why links
                 /\ link ∈ links) []) as Hnone
    by (split; constructor).
  destruct (opening r); [by intros [= <-] |].
  destruct (collect_links _ _ _ _ _ _) as [why links| | |] eqn:Hlinks;
    [| by intros [= <-] .. | done].
  intros [= <-].
  destruct (records_of_links r (iteration_order links)) as [_ Hsub].
  assert (NoDup (map (fun link => Some (VStr link)) (iteration_order links)))
    as Hnodup.
  { apply NoDup_fmap_2; [by intros ? ? [=] |].
    rewrite iteration_order_perm. apply NoDup_elements. }
  split; [by eapply sublist_NoDup |].
  apply Forall_forall. intros record Hrecord.
  assert (record !! "link" ∈ map (fun link => Some (VStr link)) (iteration_order links))
    as Hin.
  { eapply elem_of_sublist; [| exact Hsub].
    apply (list_elem_of_fmap_2 (fun record : gmap string pyval => record !! "link")).
    exact Hrecord. }
  apply list_elem_of_fmap in Hin as (link & Hlink & Hin).
  exists link, why, links. split_and!; [done | done |].
  apply elem_of_elements. by rewrite <- iteration_order_perm.
Qed.

End RunProperties.

(** A run that sees three links under a bound of two; every page holds a
    heading. Two records are returned. *)
Lemma run_respects_bound_example :
  let r :=
    Run None FeedVisible 1 900
      [inr (ScrollObs ["https://maps/place/a"; "https://maps/place/b";
                       "https://maps/place/c"] 900 0)]
      (fun link => (inr "<h1>Cafe</h1>", inr None)) in
  let results :=
    default [] (scrape_google_maps Json.loads elements elements (Some 2) r) in
  scrape_google_maps Json.loads elements elements (Some 2) r = Some results
  /\ length results = 2%nat
  /\ Z.of_nat (length results) <= 2.
Proof.
  intros r results.
  assert (scrape_google_maps Json.loads elements elements (Some 2) r = Some results)
    as Hrun by (vm_compute; reflexivity).
  refine (conj Hrun (conj _ _)); [vm_compute; reflexivity |].
  apply (run_respects_bound Json.loads elements elements (fun s => reflexivity _)
           (fun s => reflexivity _) 2 r results); [lia | exact Hrun].
Defined.

(** A run without a bound over two links, of which one page fails to
    load. *)
Lemma run_records_example :
  let r :=
    Run None FeedVisible 1 900
      [inr (ScrollObs ["https://maps/place/a"; "https://maps/place/b"] 900 1)]
      (fun link =>
         (if String.eqb link "https://maps/place/a"
          then inl (PlaywrightTimeoutError "Timeout 30000ms exceeded")
          else inr "<h1>Cafe</h1>", inr None)) in
  let results :=
    default [] (scrape_google_maps Json.loads elements elements None r) in
  scrape_google_maps Json.loads elements elements None r = Some results
  /\ map (fun record : gmap string pyval => record !! "link") results
     = [Some (VStr "https://maps/place/b")]
  /\ NoDup (map (fun record : gmap string pyval => record !! "link") results).
Proof.
  intros r results.
  assert (scrape_google_maps Json.loads elements elements None r = Some results)
    as Hrun by (vm_compute; reflexivity).
  refine (conj Hrun (conj _ _)); [vm_compute; reflexivity |].
  exact (proj1 (run_records_have_distinct_links Json.loads elements elements
                  (fun s => reflexivity _) None r results Hrun)).
Defined.

(** ** [natural_scroll] *)

Lemma natural_scroll_loop_returned : forall ticks current_position total_height p h,
  Forall drawn_increment ticks ->
  natural_scroll_loop current_position total_height ticks = Returned p h ->
  current_position <= p /\ total_height <= h /\ h <= p
  /\ (p = current_position \/ p < h + 400).
Proof.
  induction ticks as [|tick ticks IH]; intros c total p h Hall; simpl.
  - destruct (Z.ltb_spec c total); [done |]. intros [= <- <-]. lia.
  - destruct (Z.ltb_spec c total) as [Hlt|Hge]; [| intros [= <- <-]; lia].
    apply Forall_cons in Hall as [Htick Hall]. unfold drawn_increment in Htick.
    destruct (scroll_to tick); [done |].
    destruct (new_total_height tick) as [e|new]; [done |].
    intros (? & ? & ? & ?)%IH; [| done].
    destruct (Z.ltb_spec total new); lia.
Qed.

(** X18: where [natural_scroll] ends.  With increments as
    [random.randint(100, 400)] draws them, the position returned is 0 (no
    scroll was needed, or a driver call raised) or is at or past the
    bottom of the feed as last measured, by less than 400; the height
    measured never shrinks. *)
Theorem natural_scroll_ends_at_bottom :
  forall scroll_height ticks position,
    Forall drawn_increment ticks ->
    natural_scroll scroll_height ticks = Some position ->
    position = 0
    \/ exists total_height final_height,
         scroll_height = inr total_height
         /\ natural_scroll_loop 0 total_height ticks = Returned position final_height
         /\ total_height <= final_height
         /\ final_height <= position < final_height + 400.
Proof.
  intros scroll_height ticks position Hall. unfold natural_scroll.
  destruct scroll_height as [e|total]; [intros [= <-]; by left |].
  destruct (natural_scroll_loop 0 total ticks) as [p h| |] eqn:Hloop;
    [| intros [= <-]; by left | done].
  intros [= ->].
  pose proof (natural_scroll_loop_returned _ _ _ _ _ Hall Hloop)
    as (Hpos & Htotal & Hbottom & Hover).
  destruct (decide (position = 0)) as [-> | Hne]; [by left |].
  right. exists total, h. split_and!; [done | done | done | done | lia].
Qed.

(** A feed of height 500 that grows to 700 while it is scrolled. *)
Lemma natural_scroll_example :
  let ticks :=
    [ScrollTick 300 None (inr 500); ScrollTick 250 None (inr 700);
     ScrollTick 400 None (inr 700)] in
  natural_scroll (inr 500) ticks = Some 950
  /\ (950 = 0
      \/ exists total_height final_height,
           inr (A := raised) 500 = inr total_height
           /\ natural_scroll_loop 0 total_height ticks = Returned 950 final_height
           /\ total_height <= final_height
           /\ final_height <= 950 < final_height + 400).
Proof.
  intros ticks.
  assert (natural_scroll (inr 500) ticks = Some 950) as Hrun by reflexivity.
  refine (conj Hrun (natural_scroll_ends_at_bottom (inr 500) ticks 950 _ Hrun)).
  repeat constructor; unfold drawn_increment; simpl; lia.
Defined.

Lemma natural_scroll_loop_ends limit : forall ticks current_position total_height,
  Forall (fun tick => 100 <= scroll_increment tick) ticks ->
  Forall (height_within limit) ticks ->
  total_height <= limit ->
  limit - current_position <= 100 * Z.of_nat (length ticks) ->
  natural_scroll_loop current_position total_height ticks <> StillScrolling.
Proof.
  induction ticks as [|tick ticks IH]; intros c total Hinc Hh Htotal Hlen; simpl.
  - destruct (Z.ltb_spec c total); [simpl in Hlen; lia | done].
  - destruct (Z.ltb_spec c total) as [Hlt|Hge]; [| done].
    apply Forall_cons in Hinc as [Htick Hinc]. apply Forall_cons in Hh as [Hnew Hh].
    destruct (scroll_to tick); [done |].
    destruct (new_total_height tick) as [e|new] eqn:Hread; [done |].
    specialize (Hnew new Hread).
    apply IH; try done.
    + destruct (Z.ltb_spec total new); lia.
    + simpl length in Hlen. lia.
Qed.

(** X19: [natural_scroll] returns when the feed stops growing.  If no
    height read exceeds [limit], then [limit / 100] passes, rounded up,
    are enough: every pass advances by at least 100. *)
Theorem natural_scroll_returns :
  forall limit scroll_height ticks,
    Forall (fun tick => 100 <= scroll_increment tick) ticks ->
    Forall (height_within limit) ticks ->
    (forall h, scroll_height = inr h -> h <= limit) ->
    limit <= 100 * Z.of_nat (length ticks) ->
    exists position, natural_scroll scroll_height ticks = Some position.
Proof.
  intros limit scroll_height ticks Hinc Hh Hfirst Hlen. unfold natural_scroll.
  destruct scroll_height as [e|total]; [by eexists |].
  pose proof (natural_scroll_loop_ends limit ticks 0 total Hinc Hh
                (Hfirst total eq_refl)) as Hends.
  destruct (natural_scroll_loop 0 total ticks); [by eexists | by eexists |].
  exfalso. apply Hends; [lia | done].
Qed.

(** Seven passes are enough for a feed that never exceeds 700. *)
Lemma natural_scroll_returns_example :
  let ticks := replicate 7 (ScrollTick 100 None (inr 700)) in
  exists position, natural_scroll (inr 500) ticks = Some position.
Proof.
  intros ticks.
  apply (natural_scroll_returns 700 (inr 500) ticks).
  - apply Forall_replicate. simpl. lia.
  - apply Forall_replicate. intros h [= <-]. lia.
  - intros h [= <-]. lia.
  - simpl. lia.
Defined.

(** ** Pacing *)

(** X20: fatigue only grows.  The multiplier does not decrease when the
    count of places grows; it lies between 1.0 and 2.2, and is 1.0
    exactly below 20 places. *)
Theorem fatigue_is_monotone :
  forall a b,
    a <= b ->
    float_le (calculate_fatigue_delay a) (calculate_fatigue_delay b)
    /\ float_le (FDec 10 (-1)) (calculate_fatigue_delay a)
    /\ float_le (calculate_fatigue_delay a) (FDec 22 (-1))
    /\ (calculate_fatigue_delay a = FDec 10 (-1) <-> a < 20).
Proof.
  intros a b Hab. unfold calculate_fatigue_delay.
  repeat (match goal with |- context [?x <? ?y] => destruct (Z.ltb_spec x y) end);
    try lia;
    (split_and!;
     [cbn; lia | cbn; lia | cbn; lia
     | split; [first [intros _; lia | by intros [=]]
              | first [reflexivity | intros ?; lia]]]).
Qed.

(** The 10th and the 60th place. *)
Lemma fatigue_example :
  float_le (calculate_fatigue_delay 10) (calculate_fatigue_delay 60)
  /\ calculate_fatigue_delay 60 = FDec 15 (-1).
Proof.
  split; [| reflexivity].
  apply (fatigue_is_monotone 10 60). lia.
Defined.

Lemma counts_succ n : counts (S n) = counts n ++ [Z.of_nat (S n)].
Proof. unfold counts. by rewrite seq_S, map_app. Qed.

(** X21: a break every ten places.  The break is due exactly at the
    positive multiples of 10; the per-item loop counts its links from 1,
    so a run over [n] links takes [n / 10] breaks, none before the tenth
    link. *)
Theorem breaks_every_ten :
  forall n,
    Z.of_nat (breaks_taken n) = Z.of_nat n / 10
    /\ (forall place_count,
          break_due place_count = true
          <-> exists k, 0 < k /\ place_count = 10 * k).
Proof.
  intros n. split.
  - unfold breaks_taken. induction n as [|n IH]; [done |].
    rewrite counts_succ, List.filter_app, length_app, Nat2Z.inj_add, IH.
    cbn [List.filter]. unfold break_due at 1, BREAK_INTERVAL.
    destruct (Z.ltb_spec 0 (Z.of_nat (S n))); [| lia]. cbn [andb].
    destruct (Z.eqb_spec (Z.of_nat (S n) mod 10) 0) as [Hz|Hz]; cbn [length];
      revert Hz; rewrite Nat2Z.inj_succ; intros Hz;
      Z.div_mod_to_equations; lia.
  - intros place_count. unfold break_due, BREAK_INTERVAL.
    rewrite andb_true_iff, Z.ltb_lt, Z.eqb_eq. split.
    + intros [Hpos Hmod]. exists (place_count / 10).
      Z.div_mod_to_equations. lia.
    + intros (k & Hk & ->). split; [lia |].
      rewrite Z.mul_comm. apply Z_mod_mult.
Qed.

(** A run over 25 links takes two breaks, at the 10th and at the 20th. *)
Lemma breaks_example :
  Z.of_nat (breaks_taken 25) = 2 /\ break_due 20 = true.
Proof.
  destruct (breaks_every_ten 25) as [Hcount Hdue].
  split; [exact Hcount |]. apply Hdue. exists 2. lia.
Defined.

(** ** The search URL *)

Lemma hex_digit_unreserved n : is_unreserved (hex_digit n) = true.
Proof.
  unfold hex_digit. generalize (N.to_nat n). intros k.
  do 16 (destruct k as [|k]; [by vm_compute |]). by vm_compute.
Qed.

Lemma percent_encoded byte : all_chars encoded_char (percent byte) = true.
Proof.
  unfold percent. cbn [all_chars]. unfold encoded_char at 2 3.
  by rewrite !hex_digit_unreserved.
Qed.

Lemma quote_plus_encoded s : all_chars encoded_char (quote_plus s) = true.
Proof.
  induction s as [|c s IH]; [done |]. cbn [quote_plus].
  rewrite all_chars_append, IH, andb_true_r.
  destruct (Ascii.eqb c " "); [done |].
  destruct (is_unreserved c) eqn:Hc.
  { simpl. unfold encoded_char. by rewrite Hc. }
  unfold utf8. destruct (code c <? 128)%N; cbn [map join].
  - apply percent_encoded.
  - by rewrite append_nil, all_chars_append, !percent_encoded.
Qed.

(** X22: the search URL.  The query and the language are the values of the
    two parameters [q] and [hl], each encoded so that it holds only
    letters, digits, [_.-~], [%] and [+]: no character of the query can
    end its parameter or open another.  The coordinates and the zoom are
    not used. *)
Theorem search_url_is_well_formed :
  forall query lang geo_coordinates zoom,
    create_search_url query lang geo_coordinates zoom
    = BASE_URL +:+ "?q=" +:+ quote_plus query +:+ "&hl=" +:+ quote_plus lang
    /\ all_chars encoded_char (quote_plus query) = true
    /\ all_chars encoded_char (quote_plus lang) = true
    /\ create_search_url query lang geo_coordinates zoom
       = create_search_url query lang VNone VNone.
Proof.
  intros query lang geo_coordinates zoom. split_and!.
  - reflexivity.
  - apply quote_plus_encoded.
  - apply quote_plus_encoded.
  - reflexivity.
Qed.

(** A query with an accented letter, spaces and an ampersand. *)
Example search_url_example :
  create_search_url ("caf" +:+ String "233"%char "s & bars in Paris") "fr" VNone VNone
  = "https://www.google.com/maps/search/?q=caf%C3%A9s+%26+bars+in+Paris&hl=fr".
Proof. vm_compute. reflexivity. Qed.
